(** * r.erosion: RUSLE3D and USPED erosion modelling over a raster engine

    A shallow embedding of [r.erosion.py] (and of the event-based erosivity
    routine of [r.erosion.rfactor.py]).  The script is a sequence of
    commands sent to a raster engine; every command reads and writes named
    rasters of one mapset.  The mapset is a finite map from names to
    rasters, a raster gives every cell of the region a value or NULL, and
    the cell arithmetic of the raster calculator is taken over the real
    numbers. *)

From Stdlib Require Import Reals QArith Qreals Lra ZArith.
From stdpp Require Import gmap strings list.

Local Open Scope R_scope.

(** ** Cells and rasters *)

(** A cell of the current region, by row and column. *)
Definition cell : Type := nat * nat.

(** A cell value: a number, or [None] for NULL (no data). *)
Definition value : Type := option R.

Definition raster : Type := cell -> value.

Definition constant (x : R) : raster := fun _ => Some x.

(** ** The raster calculator

    The operators the script uses in its expressions, with the meaning the
    raster calculator gives them: NULL operands give NULL, a division by
    zero gives NULL, angles are in degrees, and a negative base with a
    fractional exponent gives NULL. *)

Definition lift2 (f : R -> R -> value) (a b : value) : value :=
  match a, b with
  | Some x, Some y => f x y
  | _, _ => None
  end.

Definition lift1 (f : R -> R) (a : value) : value :=
  match a with
  | Some x => Some (f x)
  | None => None
  end.

Definition v_add : value -> value -> value := lift2 (fun x y => Some (x + y)).
Definition v_sub : value -> value -> value := lift2 (fun x y => Some (x - y)).
Definition v_mul : value -> value -> value := lift2 (fun x y => Some (x * y)).

Definition v_div : value -> value -> value :=
  lift2 (fun x y => if Req_dec_T y 0 then None else Some (x / y)).

(** [pow(x, y)] of the C library on the reals; where it is infinite or
    undefined the calculator stores NULL. *)
Definition c_pow (x y : R) : value :=
  if Req_dec_T y 0 then Some 1
  else if Rlt_dec 0 x then Some (Rpower x y)
  else if Req_dec_T x 0 then (if Rlt_dec 0 y then Some 0 else None)
  else if Req_dec_T y (IZR (Int_part y)) then Some (powerRZ x (Int_part y))
  else None.

Definition v_pow : value -> value -> value := lift2 c_pow.

Definition deg (x : R) : R := x * (PI / 180).

Definition v_sin : value -> value := lift1 (fun x => sin (deg x)).
Definition v_cos : value -> value := lift1 (fun x => cos (deg x)).
Definition v_exp : value -> value := lift1 exp.

(** Expressions as the script's templates build them.  [Blank] is what an
    empty substitution leaves in the text: an option that was not given
    formats as the empty string. *)
Inductive expr : Type :=
  | Num (q : Q)
  | Map (name : string)
  | Blank
  | Add (a b : expr)
  | Sub (a b : expr)
  | Mul (a b : expr)
  | Div (a b : expr)
  | Pow (a b : expr)
  | Sin (a : expr)
  | Cos (a : expr)
  | Exp (a : expr).

Definition zip_with_raster (f : value -> value -> value) (a b : raster) : raster :=
  fun c => f (a c) (b c).

Definition map_raster (f : value -> value) (a : raster) : raster :=
  fun c => f (a c).

(** Evaluation over a mapset; [None] when the expression does not parse
    (a blank operand) or names a raster the mapset does not have. *)
Fixpoint eval (ms : gmap string raster) (e : expr) : option raster :=
  match e with
  | Num q => Some (constant (Q2R q))
  | Map n => ms !! n
  | Blank => None
  | Add a b => x ← eval ms a; y ← eval ms b; Some (zip_with_raster v_add x y)
  | Sub a b => x ← eval ms a; y ← eval ms b; Some (zip_with_raster v_sub x y)
  | Mul a b => x ← eval ms a; y ← eval ms b; Some (zip_with_raster v_mul x y)
  | Div a b => x ← eval ms a; y ← eval ms b; Some (zip_with_raster v_div x y)
  | Pow a b => x ← eval ms a; y ← eval ms b; Some (zip_with_raster v_pow x y)
  | Sin a => x ← eval ms a; Some (map_raster v_sin x)
  | Cos a => x ← eval ms a; Some (map_raster v_cos x)
  | Exp a => x ← eval ms a; Some (map_raster v_exp x)
  end.

(** An integer option substituted into a template. *)
Definition subst_int (o : option Z) : expr :=
  match o with
  | Some z => Num (inject_Z z)
  | None => Blank
  end.

(** ** The engine behind the commands

    What the script takes from the engine without computing it itself: the
    terrain operators, the resolution of the region, and whether the
    removal command reports a failure when a raster it is asked to remove
    is not there. *)
Record Engine : Type := {
  slope_of : raster -> raster;
  aspect_of : raster -> raster;
  dx_of : raster -> raster;
  dy_of : raster -> raster;
  accumulation_of : raster -> raster;
  grow_of : raster -> raster;
  nsres : Q;
  remove_strict : bool
}.

(** ** The script monad: a world, exceptions and a journal of commands *)

Inductive exn : Type :=
  | CalledModuleError (prog : string)
  | SystemExit (code : Z).

(** The functions that can be registered to run at interpreter exit. *)
Inductive exitfunc : Type :=
  | fn_cleanup.

#[global] Instance exitfunc_eq_dec : EqDecision exitfunc.
Proof. solve_decision. Defined.

Record world : Type := World {
  mapset : gmap string raster;
  exitfuncs : list exitfunc
}.

Inductive call : Type :=
  | Cmd_mapcalc (out : string) (e : expr)
  | Cmd_slope_aspect (elevation : string) (slope aspect dx dy : option string)
  | Cmd_grow_distance (input val : string)
  | Cmd_watershed (elevation accumulation : string)
  | Cmd_region
  | Cmd_colors (map : string)
  | Cmd_remove (names : list string).

Record outcome (A : Type) : Type := Outcome {
  result : A + exn;
  after : world;
  calls : list call
}.
Arguments Outcome {A} _ _ _.
Arguments result {A} _.
Arguments after {A} _.
Arguments calls {A} _.

Definition M (A : Type) : Type := world -> outcome A.

Definition ret {A} (a : A) : M A := fun w => Outcome (inl a) w [].

Definition raise {A} (e : exn) : M A := fun w => Outcome (inr e) w [].

Definition bind {A B} (m : M A) (k : A -> M B) : M B := fun w =>
  let o := m w in
  match result o with
  | inl a => let o' := k a (after o) in
             Outcome (result o') (after o') (calls o ++ calls o')
  | inr e => Outcome (inr e) (after o) (calls o)
  end.

Declare Scope script_scope.
Delimit Scope script_scope with script.
Notation "'let*' x ':=' m 'in' k" := (bind m (fun x => k))
  (at level 10, x name, m at level 100, k at level 200) : script_scope.
Notation "m '>>' k" := (bind m (fun _ => k))
  (at level 100, k at level 200, right associativity) : script_scope.
Local Open Scope script_scope.

(** [try: m except CalledModuleError: pass] *)
Definition try_pass (m : M unit) : M unit := fun w =>
  let o := m w in
  match result o with
  | inr (CalledModuleError _) => Outcome (inl tt) (after o) (calls o)
  | _ => o
  end.

Definition with_mapset (ms : gmap string raster) (w : world) : world :=
  World ms (exitfuncs w).

Definition has (ms : gmap string raster) (n : string) : bool :=
  match ms !! n with
  | Some _ => true
  | None => false
  end.

Definition put_opt (o : option string) (r : raster) (ms : gmap string raster)
  : gmap string raster :=
  match o with
  | Some n => <[n := r]> ms
  | None => ms
  end.

Section Script.

Variable E : Engine.

(** *** The commands *)

(** [r.mapcalc expression="out = e" overwrite=True] *)
Definition r_mapcalc (out : string) (e : expr) : M unit := fun w =>
  match eval (mapset w) e with
  | Some r =>
      Outcome (inl tt) (with_mapset (<[out := r]> (mapset w)) w) [Cmd_mapcalc out e]
  | None =>
      Outcome (inr (CalledModuleError "r.mapcalc")) w [Cmd_mapcalc out e]
  end.

(** [r.slope.aspect elevation=... slope=... aspect=... dx=... dy=...] *)
Definition r_slope_aspect (elevation : string) (slope aspect dx dy : option string)
  : M unit := fun w =>
  let c := Cmd_slope_aspect elevation slope aspect dx dy in
  match mapset w !! elevation with
  | Some z =>
      let ms := put_opt dy (dy_of E z)
                  (put_opt dx (dx_of E z)
                     (put_opt aspect (aspect_of E z)
                        (put_opt slope (slope_of E z) (mapset w)))) in
      Outcome (inl tt) (with_mapset ms w) [c]
  | None => Outcome (inr (CalledModuleError "r.slope.aspect")) w [c]
  end.

(** [r.grow.distance input=... value=...] *)
Definition r_grow_distance (input val : string) : M unit := fun w =>
  let c := Cmd_grow_distance input val in
  match mapset w !! input with
  | Some g => Outcome (inl tt) (with_mapset (<[val := grow_of E g]> (mapset w)) w) [c]
  | None => Outcome (inr (CalledModuleError "r.grow.distance")) w [c]
  end.

(** [r.watershed elevation=... accumulation=... flags=a] *)
Definition r_watershed (elevation accumulation : string) : M unit := fun w =>
  let c := Cmd_watershed elevation accumulation in
  match mapset w !! elevation with
  | Some z =>
      Outcome (inl tt)
        (with_mapset (<[accumulation := accumulation_of E z]> (mapset w)) w) [c]
  | None => Outcome (inr (CalledModuleError "r.watershed")) w [c]
  end.

(** [region = parse_command('g.region', flags='g'); region['nsres']] *)
Definition g_region_nsres : M Q := fun w =>
  Outcome (inl (nsres E)) w [Cmd_region].

(** [write_command('r.colors', map=..., rules='-', stdin=erosion_colors)]:
    a colour table for a raster the step before has written; no cell
    changes. *)
Definition r_colors (map : string) : M unit := fun w =>
  Outcome (inl tt) w [Cmd_colors map].

(** [g.remove type=raster name=[...] flags=f]: the named rasters that exist
    are removed; a strict engine reports a failure when one was absent. *)
Definition g_remove (names : list string) : M unit := fun w =>
  let ms := foldr delete (mapset w) names in
  let r := if remove_strict E && negb (forallb (has (mapset w)) names)
           then inr (CalledModuleError "g.remove")
           else inl tt in
  Outcome r (with_mapset ms w) [Cmd_remove names].

(** [atexit.register(f)] *)
Definition atexit_register (f : exitfunc) : M unit := fun w =>
  Outcome (inl tt) (World (mapset w) (f :: exitfuncs w)) [].

(** [sys.exit(code)] *)
Definition sys_exit (code : Z) : M unit := raise (SystemExit code).

(** *** [event_based_r_factor] of r.erosion.py *)

Definition event_based_r_factor (rain_intensity rain_duration : expr) : M string :=
  let rain_energy := "rain_energy" in
  let rain_volume := "rain_volume" in
  let erosivity := "erosivity" in
  let r_factor := "r_factor" in
  (* derive rainfall energy *)
  r_mapcalc rain_energy
    (Mul (Num 0.29)
       (Sub (Num 1) (Mul (Num 0.72) (Exp (Mul (Num (-0.05)) rain_intensity))))) >>
  (* derive rainfall volume *)
  r_mapcalc rain_volume
    (Mul rain_intensity (Div rain_duration (Num 60))) >>
  (* derive event erosivity index *)
  r_mapcalc erosivity
    (Mul (Mul (Mul (Map rain_energy) (Map rain_volume)) rain_intensity) (Num 1)) >>
  (* multiply by rainfall duration in seconds *)
  r_mapcalc r_factor
    (Div (Map erosivity) (Mul rain_duration (Num 60))) >>
  (* derive R factor *)
  r_mapcalc r_factor
    (Div (Map erosivity) (Div rain_duration (Num 525600))) >>
  (* remove temporary maps *)
  g_remove ["rain_energy"; "rain_volume"; "erosivity"] >>
  ret r_factor.

(** *** [rusle]: the RUSLE3D model for detachment limited regimes *)

Definition rusle (elevation erosion flow_accumulation r_factor c_factor k_factor
                  ls_factor : string) (m_coeff n_coeff : Q) : M unit :=
  let slope := "slope" in
  let grow_slope := "grow_slope" in
  let flowacc := "flowacc" in
  let sedflow := "sedflow" in
  (* compute slope *)
  r_slope_aspect elevation (Some slope) None None None >>
  (* grow border to fix edge effects of moving window computations *)
  r_grow_distance slope grow_slope >>
  r_mapcalc slope (Map grow_slope) >>
  (* compute flow accumulation *)
  r_watershed elevation flowacc >>
  let* res := g_region_nsres in
  r_mapcalc flow_accumulation (Mul (Map flowacc) (Num res)) >>
  (* compute dimensionless topographic factor *)
  r_mapcalc ls_factor
    (Mul (Mul (Add (Num m_coeff) (Num 1.0))
              (Pow (Div (Map flow_accumulation) (Num 22.1)) (Num m_coeff)))
         (Pow (Div (Sin (Map slope)) (Num 5.14)) (Num n_coeff))) >>
  (* compute sediment flow *)
  r_mapcalc sedflow
    (Mul (Mul (Mul (Map r_factor) (Map k_factor)) (Map ls_factor)) (Map c_factor)) >>
  (* convert sediment flow from tons/ha to kg/ms *)
  r_mapcalc erosion (Div (Mul (Map sedflow) (Num 1000)) (Num 10000)) >>
  (* set color table *)
  r_colors erosion >>
  (* remove temporary maps *)
  g_remove ["slope"; "grow_slope"; "flowacc"; "sedflow"].

(** *** [usped]: the USPED model for transport limited regimes *)

Definition usped (elevation erosion flow_accumulation r_factor c_factor k_factor
                  ls_factor : string) (m_coeff n_coeff : Q) : M unit :=
  let slope := "slope" in
  let aspect := "aspect" in
  let flowacc := "flowacc" in
  let qsx := "qsx" in
  let qsxdx := "qsxdx" in
  let qsy := "qsy" in
  let qsydy := "qsydy" in
  let grow_slope := "grow_slope" in
  let grow_aspect := "grow_aspect" in
  let grow_qsxdx := "grow_qsxdx" in
  let grow_qsydy := "grow_qsydy" in
  let sedflow := "sedflow" in
  let sediment_flux := "sediment_flux" in
  (* compute slope and aspect *)
  r_slope_aspect elevation (Some slope) (Some aspect) None None >>
  (* grow border to fix edge effects of moving window computations *)
  r_grow_distance slope grow_slope >>
  r_mapcalc slope (Map grow_slope) >>
  r_grow_distance aspect grow_aspect >>
  r_mapcalc aspect (Map grow_aspect) >>
  (* compute flow accumulation *)
  r_watershed elevation flowacc >>
  let* res := g_region_nsres in
  r_mapcalc flow_accumulation (Mul (Map flowacc) (Num res)) >>
  (* compute dimensionless topographic factor *)
  r_mapcalc ls_factor
    (Mul (Pow (Map flow_accumulation) (Num m_coeff))
         (Pow (Sin (Map slope)) (Num n_coeff))) >>
  (* compute sediment flow at sediment transport capacity *)
  r_mapcalc sedflow
    (Mul (Mul (Mul (Map r_factor) (Map k_factor)) (Map c_factor)) (Map ls_factor)) >>
  (* convert sediment flow from tons/ha to kg/ms *)
  r_mapcalc sediment_flux (Div (Mul (Map sedflow) (Num 1000)) (Num 10000)) >>
  (* compute sediment flow rate in x direction *)
  r_mapcalc qsx (Mul (Map sediment_flux) (Cos (Map aspect))) >>
  (* compute sediment flow rate in y direction *)
  r_mapcalc qsy (Mul (Map sediment_flux) (Sin (Map aspect))) >>
  (* change in sediment flow in x direction, as a partial derivative *)
  r_slope_aspect qsx None None (Some qsxdx) None >>
  (* change in sediment flow in y direction, as a partial derivative *)
  r_slope_aspect qsy None None None (Some qsydy) >>
  (* grow border to fix edge effects of moving window computations *)
  r_grow_distance qsxdx grow_qsxdx >>
  r_mapcalc qsxdx (Map grow_qsxdx) >>
  r_grow_distance qsydy grow_qsydy >>
  r_mapcalc qsydy (Map grow_qsydy) >>
  (* net erosion-deposition as divergence of sediment flow *)
  r_mapcalc erosion (Add (Map qsxdx) (Map qsydy)) >>
  (* set color table *)
  r_colors erosion >>
  (* remove temporary maps *)
  g_remove ["slope"; "aspect"; "flowacc"; "qsx"; "qsy"; "qsxdx"; "qsydy";
            "grow_slope"; "grow_aspect"; "grow_qsxdx"; "grow_qsydy";
            "sedflow"; "sediment_flux"].

(** *** [cleanup] *)

Definition cleanup_names : list string :=
  ["rain_volume"; "rain_energy"; "slope"; "aspect"; "flowacc"; "qsx"; "qsy";
   "qsxdx"; "qsydy"; "grow_slope"; "grow_aspect"; "grow_qsxdx"; "grow_qsydy";
   "sedflow"; "sediment_flux"].

Definition cleanup : M unit := try_pass (g_remove cleanup_names).

(** *** Options and [main] *)

(** The parsed options.  A raster option that was not given is the empty
    string; an integer option that was not given is [None]. *)
Record options : Type := Options {
  opt_elevation : string;
  opt_model : string;
  opt_r_factor_value : Q;
  opt_r_factor : string;
  opt_rain_intensity : option Z;
  opt_rain_duration : option Z;
  opt_k_factor_value : Q;
  opt_k_factor : string;
  opt_c_factor_value : Q;
  opt_c_factor : string;
  opt_m_coeff : Q;
  opt_n_coeff : Q;
  opt_erosion : string;
  opt_flow_accumulation : string;
  opt_ls_factor : string
}.

(** The answers the option declarations give when only the elevation is
    named on the command line. *)
Definition default_options (elevation : string) : options :=
  {| opt_elevation := elevation;
     opt_model := "rusle";
     opt_r_factor_value := 310.0;
     opt_r_factor := "";
     opt_rain_intensity := None;
     opt_rain_duration := None;
     opt_k_factor_value := 0.25;
     opt_k_factor := "";
     opt_c_factor_value := 0.1;
     opt_c_factor := "";
     opt_m_coeff := 1.5;
     opt_n_coeff := 1.2;
     opt_erosion := "erosion";
     opt_flow_accumulation := "flow_accumulation";
     opt_ls_factor := "ls_factor" |}.

(** [not s] on a string. *)
Definition py_not (s : string) : bool :=
  match s with
  | EmptyString => true
  | String _ _ => false
  end.

(** The three blocks of [main] under "check for alternative input
    parameters": each gives the name of the raster the model will read. *)
Definition r_factor_input (o : options) : M string :=
  match opt_rain_intensity o with
  | None =>
      if py_not (opt_r_factor o)
      then r_mapcalc "r_factor" (Num (opt_r_factor_value o)) >> ret "r_factor"
      else ret (opt_r_factor o)
  | Some _ =>
      (* compute event-based erosivity (R) factor *)
      event_based_r_factor (subst_int (opt_rain_intensity o))
                           (subst_int (opt_rain_duration o))
  end.

Definition c_factor_input (o : options) : M string :=
  if py_not (opt_c_factor o)
  then r_mapcalc "c_factor" (Num (opt_c_factor_value o)) >> ret "c_factor"
  else ret (opt_c_factor o).

Definition k_factor_input (o : options) : M string :=
  if py_not (opt_k_factor o)
  then r_mapcalc "k_factor" (Num (opt_k_factor_value o)) >> ret "k_factor"
  else ret (opt_k_factor o).

(** "determine type of model and run" *)
Definition run_model (o : options) (r_factor c_factor k_factor : string) : M unit :=
  (if String.eqb (opt_model o) "rusle"
   then rusle (opt_elevation o) (opt_erosion o) (opt_flow_accumulation o)
              r_factor c_factor k_factor (opt_ls_factor o)
              (opt_m_coeff o) (opt_n_coeff o)
   else ret tt) >>
  (if String.eqb (opt_model o) "usped"
   then usped (opt_elevation o) (opt_erosion o) (opt_flow_accumulation o)
              r_factor c_factor k_factor (opt_ls_factor o)
              (opt_m_coeff o) (opt_n_coeff o)
   else ret tt).

(** The first part of [main], with the three names it settles on. *)
Definition alternative_inputs (o : options) : M (string * string * string) :=
  let* r_factor := r_factor_input o in
  let* c_factor := c_factor_input o in
  let* k_factor := k_factor_input o in
  ret (r_factor, c_factor, k_factor).

Definition main (o : options) : M unit :=
  let* names := alternative_inputs o in
  let '(r_factor, c_factor, k_factor) := names in
  run_model o r_factor c_factor k_factor >>
  atexit_register fn_cleanup >>
  sys_exit 0.

(** *** The process: [main], then the functions registered for exit *)

Definition run_exitfunc (f : exitfunc) : M unit :=
  match f with
  | fn_cleanup => cleanup
  end.

(** The interpreter calls every registered function, last registered
    first; an exception in one is reported and does not stop the others. *)
Fixpoint run_exitfuncs (fs : list exitfunc) (w : world) : world * list call :=
  match fs with
  | [] => (w, [])
  | f :: rest =>
      let o := run_exitfunc f w in
      let '(w', cs) := run_exitfuncs rest (after o) in
      (w', calls o ++ cs)
  end.

Record process : Type := Process {
  exit_status : Z;
  left_behind : gmap string raster;
  journal : list call;
  invoked_at_exit : list exitfunc
}.

Definition exit_status_of (r : unit + exn) : Z :=
  match r with
  | inl _ => 0
  | inr (SystemExit code) => code
  | inr (CalledModuleError _) => 1
  end.

Definition script (o : options) (ms : gmap string raster) : process :=
  let o1 := main o (World ms []) in
  let fs := exitfuncs (after o1) in
  let '(w2, cs) := run_exitfuncs fs (after o1) in
  Process (exit_status_of (result o1)) (mapset w2) (calls o1 ++ cs) fs.

(** How many times [cleanup] ran in a process. *)
Definition cleanup_invocations (p : process) : nat :=
  length (filter (fun f => f = fn_cleanup) (invoked_at_exit p)).

(** *** [main] with its three input blocks taken in another order *)

Inductive factor : Type := R_factor | C_factor | K_factor.

Definition factor_input (f : factor) (o : options) : M string :=
  match f with
  | R_factor => r_factor_input o
  | C_factor => c_factor_input o
  | K_factor => k_factor_input o
  end.

Definition factor_option (o : options) (f : factor) : string :=
  match f with
  | R_factor => opt_r_factor o
  | C_factor => opt_c_factor o
  | K_factor => opt_k_factor o
  end.

Definition set_factor (f : factor) (n : string) (names : factor -> string)
  : factor -> string :=
  fun f' =>
    match f, f' with
    | R_factor, R_factor | C_factor, C_factor | K_factor, K_factor => n
    | _, _ => names f'
    end.

Fixpoint inputs_in_order (order : list factor) (o : options)
    (names : factor -> string) : M (factor -> string) :=
  match order with
  | [] => ret names
  | f :: rest =>
      let* n := factor_input f o in
      inputs_in_order rest o (set_factor f n names)
  end.

Definition main_in_order (order : list factor) (o : options) : M unit :=
  let* names := inputs_in_order order o (factor_option o) in
  run_model o (names R_factor) (names C_factor) (names K_factor) >>
  atexit_register fn_cleanup >>
  sys_exit 0.

End Script.

(** ** r.erosion.rfactor.py *)

Module RFactor.

Definition event_based_r_factor (E : Engine) (rain_intensity rain_interval : expr)
  : M string :=
  let rain_energy := "rain_energy" in
  let rain_volume := "rain_volume" in
  let erosivity := "erosivity" in
  let r_factor := "r_factor" in
  (* derive rainfall energy *)
  r_mapcalc rain_energy
    (Mul (Num 0.29)
       (Sub (Num 1) (Mul (Num 0.72) (Exp (Mul (Num (-0.05)) rain_intensity))))) >>
  (* derive rainfall volume *)
  r_mapcalc rain_volume
    (Mul rain_intensity (Div rain_interval (Num 60))) >>
  (* derive event erosivity index *)
  r_mapcalc erosivity
    (Mul (Mul (Mul (Map rain_energy) (Map rain_volume)) rain_intensity) (Num 1)) >>
  (* derive R factor *)
  r_mapcalc r_factor
    (Div (Map erosivity) (Div rain_interval (Num 525600))) >>
  (* remove temporary maps *)
  g_remove E ["rain_energy"; "rain_volume"; "erosivity"] >>
  ret r_factor.

Definition cleanup_names : list string :=
  ["rain_energy"; "rain_volume"; "erosivity"; "rain_intensity"].

Definition cleanup (E : Engine) : M unit := try_pass (g_remove E cleanup_names).

End RFactor.

(** ** Names

    The scratch rasters have fixed names; a run is well named when its
    outputs differ from each other and from the scratch names, and no
    input carries the name of an output or of a scratch raster. *)

Definition rusle_scratch : list string :=
  ["slope"; "grow_slope"; "flowacc"; "sedflow"].

Definition usped_scratch : list string :=
  ["slope"; "aspect"; "flowacc"; "qsx"; "qsy"; "qsxdx"; "qsydy";
   "grow_slope"; "grow_aspect"; "grow_qsxdx"; "grow_qsydy";
   "sedflow"; "sediment_flux"].

Definition well_named (scratch outputs inputs : list string) : bool :=
  bool_decide (NoDup (outputs ++ scratch)
               /\ Forall (fun n => n ∉ outputs ++ scratch) inputs).

(** ** Observations on a journal *)

(** The event-based path shows in a journal by its first command, the
    raster calculator writing [rain_energy]. *)
Definition writes_rain_energy (c : call) : bool :=
  match c with
  | Cmd_mapcalc out _ => String.eqb out "rain_energy"
  | _ => false
  end.

Definition event_based_path (cs : list call) : bool := existsb writes_rain_energy cs.

(** The expressions a journal assigns to the raster [out]. *)
Definition assigned_to (out : string) (cs : list call) : list expr :=
  omap (fun c => match c with
                 | Cmd_mapcalc out' e => if String.eqb out' out then Some e else None
                 | _ => None
                 end) cs.

(** ** The statements of the specification, for comparison *)

(** What the specification says the RUSLE [ls_factor] reduces to on flat
    terrain: [(m+1) * (flowacc/22.1)^m]. *)
Definition flat_ls_reduction (m : Q) (flow : raster) : raster :=
  fun c => v_mul (Some (Q2R m + 1)) (v_pow (v_div (flow c) (Some 22.1)) (Some (Q2R m))).

(** ** Sample inputs *)

(** An engine over a plain: no slope anywhere, an accumulation of 22.1
    cells, a region of resolution 1, and a strict removal command. *)
Definition plain_engine : Engine :=
  {| slope_of := fun _ => constant 0;
     aspect_of := fun _ => constant 0;
     dx_of := fun _ => constant 0;
     dy_of := fun _ => constant 0;
     accumulation_of := fun _ => constant 22.1;
     grow_of := fun g => g;
     nsres := 1;
     remove_strict := true |}.

(** A mapset with an elevation raster [dem] and nothing else. *)
Definition dem_only : gmap string raster := {[ "dem" := constant 100 ]}.

(** A mapset with an elevation raster and three factor rasters. *)
Definition four_rasters : gmap string raster :=
  <["dem" := constant 100]>
    (<["rain" := constant 310]>
       (<["soil" := constant 0.25]>
          (<["cover" := constant 0.1]> ∅))).

(** The mapset after the first command of the [main] of
    r.erosion.rfactor.py, [rain_intensity = 50.0]. *)
Definition rain_intensity_50 : gmap string raster :=
  {[ "rain_intensity" := constant 50 ]}.

(** [r.erosion elevation=dem rain_intensity=50]: no [rain_duration]. *)
Definition storm_without_duration : options :=
  {| opt_elevation := "dem";
     opt_model := "rusle";
     opt_r_factor_value := 310.0;
     opt_r_factor := "";
     opt_rain_intensity := Some 50%Z;
     opt_rain_duration := None;
     opt_k_factor_value := 0.25;
     opt_k_factor := "";
     opt_c_factor_value := 0.1;
     opt_c_factor := "";
     opt_m_coeff := 1.5;
     opt_n_coeff := 1.2;
     opt_erosion := "erosion";
     opt_flow_accumulation := "flow_accumulation";
     opt_ls_factor := "ls_factor" |}.

(** [r.erosion elevation=dem rain_intensity=50 rain_duration=5] *)
Definition storm : options :=
  {| opt_elevation := "dem";
     opt_model := "rusle";
     opt_r_factor_value := 310.0;
     opt_r_factor := "";
     opt_rain_intensity := Some 50%Z;
     opt_rain_duration := Some 5%Z;
     opt_k_factor_value := 0.25;
     opt_k_factor := "";
     opt_c_factor_value := 0.1;
     opt_c_factor := "";
     opt_m_coeff := 1.5;
     opt_n_coeff := 1.2;
     opt_erosion := "erosion";
     opt_flow_accumulation := "flow_accumulation";
     opt_ls_factor := "ls_factor" |}.

(** ** Predicates on runs *)

(** [post m w Q]: the run of [m] from [w] ends in a result, a world and a
    journal that satisfy [Q]. *)
Definition post {A} (m : M A) (w : world)
    (Q : A + exn -> world -> list call -> Prop) : Prop :=
  Q (result (m w)) (after (m w)) (calls (m w)).

(** A computation is tame when it leaves the registry of exit functions as
    it found it and never ends the process by itself. *)
Definition tame {A} (m : M A) : Prop :=
  forall w, exitfuncs (after (m w)) = exitfuncs w
            /\ forall code, result (m w) <> inr (SystemExit code).

(** No command in any journal of [m] satisfies [P]. *)
Definition quiet {A} (P : call -> bool) (m : M A) : Prop :=
  forall w, existsb P (calls (m w)) = false.

(** ** Further predicates on runs *)

(** [m] changes no raster whose name is outside [names]. *)
Definition touches_only {A} (names : list string) (m : M A) : Prop :=
  forall w n, n ∉ names -> mapset (after (m w)) !! n = mapset w !! n.

(** [m] deletes no raster whose name is outside [names]. *)
Definition deletes_only {A} (names : list string) (m : M A) : Prop :=
  forall w n, n ∉ names -> is_Some (mapset w !! n) -> is_Some (mapset (after (m w)) !! n).

(** When [m] returns normally, no raster of [names] is in the mapset. *)
Definition ends_without {A} (names : list string) (m : M A) : Prop :=
  forall w a, result (m w) = inl a ->
    Forall (fun n => mapset (after (m w)) !! n = None) names.

(** The rasters an expression reads, and whether it has no blank operand. *)
Fixpoint names_of (e : expr) : list string :=
  match e with
  | Num _ | Blank => []
  | Map n => [n]
  | Add a b | Sub a b | Mul a b | Div a b | Pow a b => names_of a ++ names_of b
  | Sin a | Cos a | Exp a => names_of a
  end.

Fixpoint no_blank (e : expr) : bool :=
  match e with
  | Num _ | Map _ => true
  | Blank => false
  | Add a b | Sub a b | Mul a b | Div a b | Pow a b => no_blank a && no_blank b
  | Sin a | Cos a | Exp a => no_blank a
  end.

(** The names [event_based_r_factor] removes, and the names [main] writes
    its constants to. *)
Definition event_scratch : list string := ["rain_energy"; "rain_volume"; "erosivity"].

Definition factor_names : list string := ["r_factor"; "c_factor"; "k_factor"].

(** Every name the process can write or remove, the outputs apart. *)
Definition fixed_names : list string := usped_scratch ++ event_scratch ++ factor_names.

(** * Proofs

    ** Rules for runs *)

Lemma post_bind {A B} (m : M A) (k : A -> M B) w Q :
  post m w (fun r w1 c1 =>
    match r with
    | inl a => post (k a) w1 (fun r2 w2 c2 => Q r2 w2 (c1 ++ c2))
    | inr e => Q (inr e) w1 c1
    end) ->
  post (bind m k) w Q.
Proof.
  unfold post, bind. destruct (result (m w)); auto.
Qed.

Lemma post_ret {A} (a : A) w (Q : A + exn -> world -> list call -> Prop) :
  Q (inl a) w [] -> post (ret a) w Q.
Proof. auto. Qed.

Lemma post_atexit_register f ms fs (Q : unit + exn -> world -> list call -> Prop) :
  Q (inl tt) (World ms (f :: fs)) [] -> post (atexit_register f) (World ms fs) Q.
Proof. auto. Qed.

Lemma post_raise {A} e w (Q : A + exn -> world -> list call -> Prop) :
  Q (inr e) w [] -> post (raise e) w Q.
Proof. auto. Qed.

Section Commands.

Variable E : Engine.

Lemma post_mapcalc_ok out e ms fs r Q :
  eval ms e = Some r ->
  (forall g, g = r -> Q (inl tt) (World (<[out := g]> ms) fs) [Cmd_mapcalc out e]) ->
  post (r_mapcalc out e) (World ms fs) Q.
Proof.
  intros He HQ. unfold post, r_mapcalc. cbn [mapset]. rewrite He. apply HQ. reflexivity.
Qed.

Lemma post_mapcalc_err out e ms fs Q :
  eval ms e = None ->
  Q (inr (CalledModuleError "r.mapcalc")) (World ms fs) [Cmd_mapcalc out e] ->
  post (r_mapcalc out e) (World ms fs) Q.
Proof.
  intros He HQ. unfold post, r_mapcalc. cbn [mapset]. rewrite He. exact HQ.
Qed.

Lemma post_slope_aspect_ok elevation slope aspect dx dy ms fs z Q :
  ms !! elevation = Some z ->
  Q (inl tt)
    (World (put_opt dy (dy_of E z) (put_opt dx (dx_of E z)
              (put_opt aspect (aspect_of E z) (put_opt slope (slope_of E z) ms)))) fs)
    [Cmd_slope_aspect elevation slope aspect dx dy] ->
  post (r_slope_aspect E elevation slope aspect dx dy) (World ms fs) Q.
Proof.
  intros Hz HQ. unfold post, r_slope_aspect. cbn [mapset]. rewrite Hz. exact HQ.
Qed.

Lemma post_grow_distance_ok input val ms fs g Q :
  ms !! input = Some g ->
  Q (inl tt) (World (<[val := grow_of E g]> ms) fs) [Cmd_grow_distance input val] ->
  post (r_grow_distance E input val) (World ms fs) Q.
Proof.
  intros Hg HQ. unfold post, r_grow_distance. cbn [mapset]. rewrite Hg. exact HQ.
Qed.

Lemma post_watershed_ok elevation accumulation ms fs z Q :
  ms !! elevation = Some z ->
  Q (inl tt) (World (<[accumulation := accumulation_of E z]> ms) fs)
    [Cmd_watershed elevation accumulation] ->
  post (r_watershed E elevation accumulation) (World ms fs) Q.
Proof.
  intros Hz HQ. unfold post, r_watershed. cbn [mapset]. rewrite Hz. exact HQ.
Qed.

Lemma post_region w (Q : Q + exn -> world -> list call -> Prop) :
  Q (inl (nsres E)) w [Cmd_region] -> post (g_region_nsres E) w Q.
Proof. auto. Qed.

Lemma post_colors map w (Q : unit + exn -> world -> list call -> Prop) :
  Q (inl tt) w [Cmd_colors map] -> post (r_colors map) w Q.
Proof. auto. Qed.

Lemma forallb_has_true ms names :
  Forall (fun n => is_Some (ms !! n)) names -> forallb (has ms) names = true.
Proof.
  induction 1 as [|n names [g Hg] _ IH]; [reflexivity|].
  cbn [forallb]. unfold has at 1. rewrite Hg. exact IH.
Qed.

Lemma post_remove_ok names ms fs Q :
  Forall (fun n => is_Some (ms !! n)) names ->
  Q (inl tt) (World (foldr delete ms names) fs) [Cmd_remove names] ->
  post (g_remove E names) (World ms fs) Q.
Proof.
  intros Hall HQ. unfold post, g_remove. cbn [mapset result after calls with_mapset exitfuncs].
  rewrite (forallb_has_true _ _ Hall). cbn [negb]. rewrite andb_false_r. exact HQ.
Qed.

End Commands.

Ltac ne := first [assumption | (apply not_eq_sym; assumption) | discriminate].

Ltac lookups :=
  repeat first
    [ rewrite lookup_insert_eq
    | rewrite lookup_delete_eq
    | rewrite lookup_insert_ne by ne
    | rewrite lookup_delete_ne by ne
    | match goal with
      | H : ?m !! ?k = Some _ |- context [?m !! ?k] => rewrite H
      end ].

Ltac evaluate :=
  cbn [eval]; repeat (lookups; cbn [mbind option_bind]); reflexivity.

Ltac present :=
  repeat (apply Forall_cons_2; [lookups; eauto|]); try apply Forall_nil_2.

Ltac step :=
  lazymatch goal with
  | |- post (bind _ _) _ _ => apply post_bind
  | |- post (r_mapcalc _ _) _ _ =>
      first
        [ eapply post_mapcalc_ok;
          [ evaluate | let g := fresh "g" in let Hg := fresh "Hg" in intros g Hg ]
        | eapply post_mapcalc_err; [ evaluate | ] ]
  | |- post (r_slope_aspect _ _ _ _ _ _) _ _ =>
      eapply post_slope_aspect_ok; [ lookups; reflexivity | cbn [put_opt] ]
  | |- post (r_grow_distance _ _ _) _ _ =>
      eapply post_grow_distance_ok; [ lookups; reflexivity | ]
  | |- post (r_watershed _ _ _) _ _ =>
      eapply post_watershed_ok; [ lookups; reflexivity | ]
  | |- post (g_region_nsres _) _ _ => apply post_region
  | |- post (r_colors _) _ _ => apply post_colors
  | |- post (g_remove _ _) _ _ => apply post_remove_ok; [ present | cbn [foldr] ]
  | |- post (ret _) _ _ => apply post_ret
  | |- post (raise _) _ _ => apply post_raise
  | |- post (sys_exit _) _ _ => apply post_raise
  | |- post (atexit_register _) _ _ => apply post_atexit_register
  end;
  cbn beta iota.

Ltac split_names H :=
  unfold well_named in H; apply bool_decide_eq_true_1 in H;
  unfold rusle_scratch, usped_scratch in H; cbn [app] in H;
  let H1 := fresh "Hnd" in
  let H2 := fresh "Hin" in
  destruct H as [H1 H2];
  repeat match goal with
  | H : NoDup (_ :: _) |- _ => apply NoDup_cons in H as [? H]
  | H : Forall _ (_ :: _) |- _ => apply Forall_cons in H as [? H]
  | H : _ ∉ _ :: _ |- _ => apply not_elem_of_cons in H as [? H]
  end;
  clear H1 H2.

(** *** Integer literals as real numbers

    A decimal literal of the reals is [Q2R] of the same decimal, so only
    the integers need a conversion. *)

Ltac literal := unfold Q2R; cbn [Qnum Qden]; lra.

Lemma Q2R_1 : Q2R 1 = 1.
Proof. literal. Qed.
Lemma Q2R_1_0 : Q2R 1.0 = 1.
Proof. literal. Qed.
Lemma Q2R_60 : Q2R 60 = 60.
Proof. literal. Qed.
Lemma Q2R_525600 : Q2R 525600 = 525600.
Proof. literal. Qed.
Lemma Q2R_1000 : Q2R 1000 = 1000.
Proof. literal. Qed.
Lemma Q2R_10000 : Q2R 10000 = 10000.
Proof. literal. Qed.

Create Rewrite HintDb literals.
#[export] Hint Rewrite Q2R_1 Q2R_1_0 Q2R_60 Q2R_525600 Q2R_1000 Q2R_10000 : literals.

Ltac cellwise :=
  unfold zip_with_raster, map_raster, constant;
  cbn [v_add v_sub lift2];
  autorewrite with literals.

Lemma eqb_ne (a b : string) : a <> b -> String.eqb a b = false.
Proof. apply String.eqb_neq. Qed.

Ltac journal :=
  unfold assigned_to; cbn [omap list_omap app];
  repeat first [ rewrite String.eqb_refl | rewrite eqb_ne by ne ];
  cbn [omap list_omap app].


(** *** Cell arithmetic *)

Lemma v_div_some x y : y <> 0 -> v_div (Some x) (Some y) = Some (x / y).
Proof.
  intros Hy. cbn [v_div lift2]. destruct (Req_dec_T y 0); [contradiction | reflexivity].
Qed.

Lemma v_mul_one_r x : v_mul x (Some 1) = x.
Proof. destruct x; cbn [v_mul lift2]; [f_equal; lra | reflexivity]. Qed.

Lemma c_pow_zero_exponent x : c_pow x 0 = Some 1.
Proof. unfold c_pow. destruct (Req_dec_T 0 0); [reflexivity | contradiction]. Qed.

Lemma c_pow_zero_base y : 0 < y -> c_pow 0 y = Some 0.
Proof.
  intros Hy. unfold c_pow.
  destruct (Req_dec_T y 0); [lra|].
  destruct (Rlt_dec 0 0); [lra|].
  destruct (Req_dec_T 0 0); [|contradiction].
  destruct (Rlt_dec 0 y); [reflexivity | contradiction].
Qed.

Lemma c_pow_positive_base x y : 0 < x -> y <> 0 -> c_pow x y = Some (Rpower x y).
Proof.
  intros Hx Hy. unfold c_pow.
  destruct (Req_dec_T y 0); [contradiction|].
  destruct (Rlt_dec 0 x); [reflexivity | contradiction].
Qed.

Lemma sin_deg_0 : sin (deg 0) = 0.
Proof. unfold deg. rewrite Rmult_0_l. apply sin_0. Qed.

Lemma Q2R_pos q : (0 < q)%Q -> 0 < Q2R q.
Proof. intros H. apply Qlt_Rlt in H. rewrite RMicromega.Q2R_0 in H. exact H. Qed.

Section Rain.
Variable E : Engine.

Lemma event_based_r_factor_run i d ms fs :
  Q2R d <> 0 ->
  post (event_based_r_factor E (Num i) (Num d)) (World ms fs)
    (fun r w cs =>
       r = inl "r_factor" /\ exitfuncs w = fs /\
       (exists g : raster,
          mapset w !! "r_factor" = Some g /\
          forall c, g c =
            Some (0.29 * (1 - 0.72 * exp (-0.05 * Q2R i))
                  * (Q2R i * (Q2R d / 60)) * Q2R i / (Q2R d / 525600))) /\
       Forall (fun s => mapset w !! s = None)
         ["rain_energy"; "rain_volume"; "erosivity"]).
Proof.
  intros Hd. unfold event_based_r_factor.
  repeat step.
  split; [reflexivity|]. split; [reflexivity|]. cbn [mapset]. split.
  - eexists. split; [lookups; reflexivity|].
    intros c. subst. cellwise.
    cbn [v_mul v_sub v_exp lift1 lift2].
    rewrite (v_div_some _ 60) by lra.
    cbn [v_mul lift2].
    rewrite (v_div_some _ 525600) by lra.
    rewrite v_div_some.
    + f_equal. field. lra.
    + intros H. apply Hd. lra.
  - present. all: lookups; reflexivity.
Qed.

Lemma event_based_r_factor_same_as_rfactor i d ms fs :
  after (event_based_r_factor E (Num i) (Num d) (World ms fs))
  = after (RFactor.event_based_r_factor E (Num i) (Num d) (World ms fs))
  /\ result (event_based_r_factor E (Num i) (Num d) (World ms fs))
    = result (RFactor.event_based_r_factor E (Num i) (Num d) (World ms fs)).
Proof.
  cut (post (event_based_r_factor E (Num i) (Num d)) (World ms fs)
         (fun r1 w1 _ =>
            post (RFactor.event_based_r_factor E (Num i) (Num d)) (World ms fs)
              (fun r2 w2 _ => w1 = w2 /\ r1 = r2))).
  { unfold post. tauto. }
  unfold event_based_r_factor, RFactor.event_based_r_factor.
  repeat step.
  subst. rewrite insert_insert_eq. split; reflexivity.
Qed.

(** The value of the event-based factor in a cell of intensity [x]. *)
Lemma event_cell x d :
  d <> 0 ->
  v_div (v_mul (v_mul (v_mul (v_mul (Some 0.29)
                                (v_sub (Some 1)
                                   (v_mul (Some 0.72) (v_exp (v_mul (Some (-0.05)) x)))))
                         (v_mul x (v_div (Some d) (Some 60))))
                  x)
           (Some 1))
    (v_div (Some d) (Some 525600))
  = match x with
    | Some i => Some (0.29 * (1 - 0.72 * exp (-0.05 * i)) * i ^ 2 * 8760)
    | None => None
    end.
Proof.
  intros Hd. destruct x as [i|]; [|reflexivity].
  cbn [v_mul v_sub v_exp lift1 lift2].
  rewrite (v_div_some _ 60) by lra. cbn [v_mul lift2].
  rewrite (v_div_some _ 525600) by lra.
  rewrite v_div_some by (intros H; apply Hd; lra).
  f_equal. field. lra.
Qed.

Lemma event_based_r_factor_run_raster n d ms fs (gi : raster) :
  n <> "rain_energy" -> n <> "rain_volume" ->
  ms !! n = Some gi ->
  Q2R d <> 0 ->
  post (event_based_r_factor E (Map n) (Num d)) (World ms fs)
    (fun r w cs =>
       r = inl "r_factor"
       /\ exists g : raster,
            mapset w !! "r_factor" = Some g
            /\ forall c, g c =
                 match gi c with
                 | Some x => Some (0.29 * (1 - 0.72 * exp (-0.05 * x)) * x ^ 2 * 8760)
                 | None => None
                 end).
Proof.
  intros H1 H2 Hn Hd. unfold event_based_r_factor.
  repeat step.
  split; [reflexivity|]. cbn [mapset].
  eexists. split; [lookups; reflexivity|].
  intros c. subst. cellwise. apply event_cell. exact Hd.
Qed.

Lemma rfactor_event_based_r_factor_run_raster n d ms fs (gi : raster) :
  n <> "rain_energy" -> n <> "rain_volume" ->
  ms !! n = Some gi ->
  Q2R d <> 0 ->
  post (RFactor.event_based_r_factor E (Map n) (Num d)) (World ms fs)
    (fun r w cs =>
       r = inl "r_factor"
       /\ exists g : raster,
            mapset w !! "r_factor" = Some g
            /\ forall c, g c =
                 match gi c with
                 | Some x => Some (0.29 * (1 - 0.72 * exp (-0.05 * x)) * x ^ 2 * 8760)
                 | None => None
                 end).
Proof.
  intros H1 H2 Hn Hd. unfold RFactor.event_based_r_factor.
  repeat step.
  split; [reflexivity|]. cbn [mapset].
  eexists. split; [lookups; reflexivity|].
  intros c. subst. cellwise. apply event_cell. exact Hd.
Qed.
End Rain.

Section Models.
Variable E : Engine.

Lemma rusle_run elevation erosion flow_accumulation r_factor c_factor k_factor
    ls_factor m n ms fs (z gr gk gc : raster) :
  well_named rusle_scratch [erosion; flow_accumulation; ls_factor]
    [elevation; r_factor; c_factor; k_factor] = true ->
  ms !! elevation = Some z ->
  ms !! r_factor = Some gr ->
  ms !! k_factor = Some gk ->
  ms !! c_factor = Some gc ->
  post (rusle E elevation erosion flow_accumulation r_factor c_factor k_factor
          ls_factor m n) (World ms fs)
    (fun r w cs =>
       r = inl tt /\ exitfuncs w = fs /\
       exists fa ls er : raster,
         mapset w !! flow_accumulation = Some fa /\
         mapset w !! ls_factor = Some ls /\
         mapset w !! erosion = Some er /\
         (forall c, fa c = v_mul (accumulation_of E z c) (Some (Q2R (nsres E)))) /\
         (forall c, ls c =
            v_mul (v_mul (Some (Q2R m + 1))
                         (v_pow (v_div (fa c) (Some 22.1)) (Some (Q2R m))))
                  (v_pow (v_div (v_sin (grow_of E (slope_of E z) c)) (Some 5.14))
                         (Some (Q2R n)))) /\
         (forall c, er c =
            v_div (v_mul (v_mul (v_mul (v_mul (gr c) (gk c)) (ls c)) (gc c))
                         (Some 1000))
                  (Some 10000)) /\
         Forall (fun s => mapset w !! s = None) rusle_scratch /\
         assigned_to erosion cs = [Div (Mul (Map "sedflow") (Num 1000)) (Num 10000)]).
Proof.
  intros Hn Hz Hr Hk Hc. split_names Hn. unfold rusle.
  repeat step.
  split; [reflexivity|]. split; [reflexivity|].
  exists g0, g1, g3. cbn [mapset].
  repeat split.
  - lookups. reflexivity.
  - lookups. reflexivity.
  - lookups. reflexivity.
  - intros c. subst. cellwise. reflexivity.
  - intros c. subst g1 g. cellwise. reflexivity.
  - intros c. subst g3 g2. cellwise. reflexivity.
  - unfold rusle_scratch. repeat (apply Forall_cons_2; [ | ]); try apply Forall_nil_2.
    all: lookups; reflexivity.
  - journal. reflexivity.
Qed.

Lemma usped_run elevation erosion flow_accumulation r_factor c_factor k_factor
    ls_factor m n ms fs (z gr gk gc : raster) :
  well_named usped_scratch [erosion; flow_accumulation; ls_factor]
    [elevation; r_factor; c_factor; k_factor] = true ->
  ms !! elevation = Some z ->
  ms !! r_factor = Some gr ->
  ms !! k_factor = Some gk ->
  ms !! c_factor = Some gc ->
  post (usped E elevation erosion flow_accumulation r_factor c_factor k_factor
          ls_factor m n) (World ms fs)
    (fun r w cs =>
       r = inl tt /\ exitfuncs w = fs /\
       exists fa ls er flux qsx qsy : raster,
         mapset w !! flow_accumulation = Some fa /\
         mapset w !! ls_factor = Some ls /\
         mapset w !! erosion = Some er /\
         (forall c, fa c = v_mul (accumulation_of E z c) (Some (Q2R (nsres E)))) /\
         (forall c, ls c =
            v_mul (v_pow (fa c) (Some (Q2R m)))
                  (v_pow (v_sin (grow_of E (slope_of E z) c)) (Some (Q2R n)))) /\
         (forall c, flux c =
            v_div (v_mul (v_mul (v_mul (v_mul (gr c) (gk c)) (gc c)) (ls c))
                         (Some 1000))
                  (Some 10000)) /\
         (forall c, qsx c = v_mul (flux c) (v_cos (grow_of E (aspect_of E z) c))) /\
         (forall c, qsy c = v_mul (flux c) (v_sin (grow_of E (aspect_of E z) c))) /\
         (forall c, er c =
            v_add (grow_of E (dx_of E qsx) c) (grow_of E (dy_of E qsy) c)) /\
         Forall (fun s => mapset w !! s = None) usped_scratch).
Proof.
  intros Hn Hz Hr Hk Hc. split_names Hn. unfold usped.
  repeat step.
  split; [reflexivity|]. split; [reflexivity|].
  match goal with
  | Hfa : ?fa = zip_with_raster v_mul (accumulation_of E z) _,
    Hls : ?ls = zip_with_raster v_mul (zip_with_raster v_pow ?fa _) _,
    Hfl : ?fl = zip_with_raster v_div _ (constant (Q2R 10000)),
    Hqx : ?qx = zip_with_raster v_mul ?fl (map_raster v_cos _),
    Hqy : ?qy = zip_with_raster v_mul ?fl (map_raster v_sin _),
    Her : ?er = zip_with_raster v_add _ _ |- _ =>
      exists fa, ls, er, fl, qx, qy
  end.
  cbn [mapset].
  repeat split.
  1-3: lookups; reflexivity.
  1-6: intros c; subst; cellwise; reflexivity.
  unfold usped_scratch. present. all: lookups; reflexivity.
Qed.

End Models.

(** *** What the commands leave alone *)


Lemma tame_bind {A B} (m : M A) (k : A -> M B) :
  tame m -> (forall a, tame (k a)) -> tame (bind m k).
Proof.
  intros Hm Hk w. destruct (Hm w) as [Hf Hr]. unfold bind.
  destruct (result (m w)) as [a|e] eqn:Hres; cbn [after result].
  - destruct (Hk a (after (m w))) as [Hf' Hr']. split; [congruence | exact Hr'].
  - split; [exact Hf|]. intros code Heq. apply (Hr code). congruence.
Qed.

Lemma bind_inl {A B} (m : M A) (k : A -> M B) w a :
  result (m w) = inl a ->
  bind m k w = Outcome (result (k a (after (m w)))) (after (k a (after (m w))))
                 (calls (m w) ++ calls (k a (after (m w)))).
Proof. intros H. unfold bind. rewrite H. reflexivity. Qed.

Lemma bind_inr {A B} (m : M A) (k : A -> M B) w e :
  result (m w) = inr e ->
  bind m k w = Outcome (inr e) (after (m w)) (calls (m w)).
Proof. intros H. unfold bind. rewrite H. reflexivity. Qed.

Lemma tame_ret {A} (a : A) : tame (ret a).
Proof. intros w. split; [reflexivity | discriminate]. Qed.

Section Tame.

Variable E : Engine.

Lemma tame_mapcalc out e : tame (r_mapcalc out e).
Proof.
  intros w. unfold r_mapcalc. destruct (eval (mapset w) e); cbn; split;
    solve [reflexivity | discriminate].
Qed.

Lemma tame_slope_aspect elevation slope aspect dx dy :
  tame (r_slope_aspect E elevation slope aspect dx dy).
Proof.
  intros w. unfold r_slope_aspect. destruct (mapset w !! elevation); cbn; split;
    solve [reflexivity | discriminate].
Qed.

Lemma tame_grow_distance input val : tame (r_grow_distance E input val).
Proof.
  intros w. unfold r_grow_distance. destruct (mapset w !! input); cbn; split;
    solve [reflexivity | discriminate].
Qed.

Lemma tame_watershed elevation accumulation :
  tame (r_watershed E elevation accumulation).
Proof.
  intros w. unfold r_watershed. destruct (mapset w !! elevation); cbn; split;
    solve [reflexivity | discriminate].
Qed.

Lemma tame_region : tame (g_region_nsres E).
Proof. intros w. split; [reflexivity | discriminate]. Qed.

Lemma tame_colors map : tame (r_colors map).
Proof. intros w. split; [reflexivity | discriminate]. Qed.

Lemma tame_remove names : tame (g_remove E names).
Proof.
  intros w. unfold g_remove. cbn [after result with_mapset exitfuncs].
  split; [reflexivity|].
  destruct (remove_strict E && negb (forallb (has (mapset w)) names)); discriminate.
Qed.

Ltac tameness :=
  repeat first
    [ apply tame_bind; [ | intros ? ]
    | apply tame_ret
    | apply tame_mapcalc
    | apply tame_slope_aspect
    | apply tame_grow_distance
    | apply tame_watershed
    | apply tame_region
    | apply tame_colors
    | apply tame_remove ].

Lemma tame_event_based_r_factor i d : tame (event_based_r_factor E i d).
Proof. unfold event_based_r_factor. tameness. Qed.

Lemma tame_rusle elevation erosion flow_accumulation r_factor c_factor k_factor
    ls_factor m n :
  tame (rusle E elevation erosion flow_accumulation r_factor c_factor k_factor
          ls_factor m n).
Proof. unfold rusle. tameness. Qed.

Lemma tame_usped elevation erosion flow_accumulation r_factor c_factor k_factor
    ls_factor m n :
  tame (usped E elevation erosion flow_accumulation r_factor c_factor k_factor
          ls_factor m n).
Proof. unfold usped. tameness. Qed.

Lemma tame_alternative_inputs o : tame (alternative_inputs E o).
Proof.
  unfold alternative_inputs, r_factor_input, c_factor_input, k_factor_input.
  apply tame_bind; [ | intros r; apply tame_bind; [ | intros c; apply tame_bind;
                                                          [ | intros k; apply tame_ret ] ] ].
  - destruct (opt_rain_intensity o); [apply tame_event_based_r_factor|].
    destruct (py_not (opt_r_factor o)); tameness.
  - destruct (py_not (opt_c_factor o)); tameness.
  - destruct (py_not (opt_k_factor o)); tameness.
Qed.

Lemma tame_run_model o r c k : tame (run_model E o r c k).
Proof.
  unfold run_model. apply tame_bind; [ | intros _ ].
  - destruct (String.eqb (opt_model o) "rusle"); [apply tame_rusle | apply tame_ret].
  - destruct (String.eqb (opt_model o) "usped"); [apply tame_usped | apply tame_ret].
Qed.

(** [main] either reaches [sys.exit(0)] with [cleanup] registered, or stops
    at the error of a command with nothing registered. *)
Lemma main_registers_last o ms :
  let run := main E o (World ms []) in
  (result run = inr (SystemExit 0) /\ exitfuncs (after run) = [fn_cleanup])
  \/ (exists prog, result run = inr (CalledModuleError prog)
                   /\ exitfuncs (after run) = []).
Proof.
  cbv zeta. unfold main.
  destruct (tame_alternative_inputs o (World ms [])) as [Hf Hr].
  destruct (result (alternative_inputs E o (World ms []))) as [[[r c] k]|e] eqn:Hres.
  - rewrite (bind_inl _ _ _ _ Hres). cbn [result after].
    destruct (tame_run_model o r c k (after (alternative_inputs E o (World ms []))))
      as [Hf' Hr'].
    destruct (result (run_model E o r c k
                        (after (alternative_inputs E o (World ms [])))))
      as [[]|e] eqn:Hres'.
    + left. rewrite (bind_inl _ _ _ _ Hres'). cbn [result after].
      unfold bind, atexit_register, sys_exit, raise. cbn [result after exitfuncs].
      split; [reflexivity|]. rewrite Hf', Hf. reflexivity.
    + right. rewrite (bind_inr _ _ _ _ Hres'). cbn [result after].
      destruct e as [prog|code].
      * exists prog. split; [reflexivity | rewrite Hf', Hf; reflexivity].
      * exfalso. eapply Hr'. reflexivity.
  - right. rewrite (bind_inr _ _ _ _ Hres). cbn [result after].
    destruct e as [prog|code].
    + exists prog. split; [reflexivity | exact Hf].
    + exfalso. eapply Hr. reflexivity.
Qed.

(** [cleanup] runs once after a run that reached [sys.exit], and not at
    all after a run that a command's error stopped. *)
Lemma cleanup_only_after_success o ms :
  cleanup_invocations (script E o ms)
  = match result (main E o (World ms [])) with
    | inr (SystemExit _) => 1%nat
    | _ => 0%nat
    end.
Proof.
  unfold cleanup_invocations, script.
  destruct (main_registers_last o ms) as [[Hr Hf]|[prog [Hr Hf]]];
    rewrite Hr, Hf;
    destruct (run_exitfuncs E _ _); reflexivity.
Qed.

(** [cleanup] returns normally, whatever the removal command reports. *)
Lemma cleanup_never_raises w : result (cleanup E w) = inl tt.
Proof.
  unfold cleanup, try_pass, g_remove. cbn [result].
  destruct (remove_strict E && negb (forallb (has (mapset w)) cleanup_names));
    reflexivity.
Qed.

End Tame.

(** *** The journal of a run *)

Lemma calls_mapcalc out e w : calls (r_mapcalc out e w) = [Cmd_mapcalc out e].
Proof. unfold r_mapcalc. destruct (eval (mapset w) e); reflexivity. Qed.

Lemma calls_bind_l {A B} (P : call -> bool) (m : M A) (k : A -> M B) w :
  existsb P (calls (m w)) = true -> existsb P (calls (bind m k w)) = true.
Proof.
  intros H. unfold bind. destruct (result (m w)); cbn [calls]; [|exact H].
  rewrite existsb_app, H. reflexivity.
Qed.


Lemma quiet_bind {A B} P (m : M A) (k : A -> M B) :
  quiet P m -> (forall a, quiet P (k a)) -> quiet P (bind m k).
Proof.
  intros Hm Hk w. unfold bind. destruct (result (m w)); cbn [calls]; [|apply Hm].
  rewrite existsb_app, Hm, Hk. reflexivity.
Qed.

Lemma quiet_ret {A} P (a : A) : quiet P (ret a).
Proof. intros w. reflexivity. Qed.

Lemma quiet_mapcalc P out e : P (Cmd_mapcalc out e) = false -> quiet P (r_mapcalc out e).
Proof. intros H w. rewrite calls_mapcalc. cbn [existsb]. rewrite H. reflexivity. Qed.

Section Inputs.

Variable E : Engine.

(** The event-based path is taken exactly when [rain_intensity] is given. *)
Lemma event_based_path_iff o w :
  event_based_path (calls (alternative_inputs E o w)) = true
  <-> is_Some (opt_rain_intensity o).
Proof.
  unfold event_based_path, alternative_inputs. split.
  - intros H. destruct (opt_rain_intensity o) as [i|] eqn:Hi; [eauto|].
    exfalso. revert H.
    assert (Hq : quiet writes_rain_energy
                   (let* r_factor := r_factor_input E o in
                    let* c_factor := c_factor_input o in
                    let* k_factor := k_factor_input o in
                    ret (r_factor, c_factor, k_factor))).
    { unfold r_factor_input, c_factor_input, k_factor_input. rewrite Hi.
      repeat first
        [ apply quiet_bind; [ | intros ? ]
        | apply quiet_ret
        | apply quiet_mapcalc; reflexivity
        | match goal with |- quiet _ (if ?b then _ else _) => destruct b end ]. }
    rewrite (Hq w). discriminate.
  - intros [i Hi]. apply calls_bind_l.
    unfold r_factor_input. rewrite Hi. unfold event_based_r_factor.
    apply calls_bind_l. rewrite calls_mapcalc. reflexivity.
Qed.

(** With [rain_intensity] but no [rain_duration], [main] stops at the
    second expression of the event-based routine. *)
Lemma inputs_without_duration o ms fs i :
  opt_rain_intensity o = Some i ->
  opt_rain_duration o = None ->
  post (alternative_inputs E o) (World ms fs)
    (fun r w cs =>
       r = inr (CalledModuleError "r.mapcalc") /\ exitfuncs w = fs /\
       is_Some (mapset w !! "rain_energy") /\
       (forall n, n <> "rain_energy" -> mapset w !! n = ms !! n)).
Proof.
  intros Hi Hd.
  unfold alternative_inputs, r_factor_input, event_based_r_factor.
  rewrite Hi, Hd. cbn [subst_int].
  repeat step.
  split; [reflexivity|]. split; [reflexivity|]. cbn [mapset]. split.
  - lookups. eauto.
  - intros n Hn. lookups. reflexivity.
Qed.

Lemma main_without_duration o ms fs i :
  opt_rain_intensity o = Some i ->
  opt_rain_duration o = None ->
  post (main E o) (World ms fs)
    (fun r w cs =>
       r = inr (CalledModuleError "r.mapcalc") /\ exitfuncs w = fs /\
       is_Some (mapset w !! "rain_energy") /\
       (forall n, n <> "rain_energy" -> mapset w !! n = ms !! n)).
Proof.
  intros Hi Hd. unfold main. apply post_bind.
  pose proof (inputs_without_duration o ms fs i Hi Hd) as H.
  unfold post in *. destruct H as (Hr & H). rewrite Hr. exact (conj eq_refl H).
Qed.

(** When no factor raster is given and no rain, the three blocks write
    three constants. *)
Lemma constant_inputs o ms fs :
  opt_rain_intensity o = None ->
  opt_r_factor o = "" -> opt_c_factor o = "" -> opt_k_factor o = "" ->
  post (alternative_inputs E o) (World ms fs)
    (fun r w cs =>
       r = inl ("r_factor", "c_factor", "k_factor") /\
       w = World (<["k_factor" := constant (Q2R (opt_k_factor_value o))]>
                   (<["c_factor" := constant (Q2R (opt_c_factor_value o))]>
                      (<["r_factor" := constant (Q2R (opt_r_factor_value o))]> ms))) fs).
Proof.
  intros Hi Hr Hc Hk.
  unfold alternative_inputs, r_factor_input, c_factor_input, k_factor_input.
  rewrite Hi, Hr, Hc, Hk. cbn [py_not].
  repeat step. subst. split; reflexivity.
Qed.

Lemma inputs_in_order_constant order o ms fs :
  opt_rain_intensity o = None ->
  opt_r_factor o = "" -> opt_c_factor o = "" -> opt_k_factor o = "" ->
  order ∈ permutations [R_factor; C_factor; K_factor] ->
  post (inputs_in_order E order o (factor_option o)) (World ms fs)
    (fun r w cs =>
       (exists names, r = inl names /\ names R_factor = "r_factor"
                      /\ names C_factor = "c_factor" /\ names K_factor = "k_factor") /\
       w = World (<["k_factor" := constant (Q2R (opt_k_factor_value o))]>
                   (<["c_factor" := constant (Q2R (opt_c_factor_value o))]>
                      (<["r_factor" := constant (Q2R (opt_r_factor_value o))]> ms))) fs).
Proof.
  intros Hi Hr Hc Hk Hord.
  vm_compute in Hord.
  repeat (apply elem_of_cons in Hord as [->|Hord]); [ .. | by apply elem_of_nil in Hord ].
  all: cbn [inputs_in_order factor_input];
    unfold r_factor_input, c_factor_input, k_factor_input;
    rewrite Hi, Hr, Hc, Hk; cbn [py_not];
    repeat step; subst;
    (split; [ eexists; split; [reflexivity|]; cbn; auto | ]).
  all: f_equal; apply map_eq; intros n; rewrite !lookup_insert;
    repeat case_decide; congruence.
Qed.

End Inputs.

(** ** The event-based erosivity factor *)

(** C1. For every positive rain intensity [i] and duration [d],
    [event_based_r_factor] returns the name [r_factor], and the raster
    under that name holds in every cell the composition of the four
    formulas: rain energy [0.29 * (1 - 0.72 * exp (-0.05 * i))], times
    rain volume [i * (d / 60)], times [i], over [d / 525600].  The world it
    leaves is the one the routine of r.erosion.rfactor.py leaves, which has
    no assignment of [erosivity / (d * 60)]: that assignment is overwritten
    and changes nothing. *)
Theorem event_based_r_factor_closed_form (E : Engine) (i d : Q) ms fs :
  (0 < i)%Q -> (0 < d)%Q ->
  let run := event_based_r_factor E (Num i) (Num d) (World ms fs) in
  result run = inl "r_factor"
  /\ (exists g : raster,
        mapset (after run) !! "r_factor" = Some g
        /\ forall c, g c =
             Some (0.29 * (1 - 0.72 * exp (-0.05 * Q2R i))
                   * (Q2R i * (Q2R d / 60)) * Q2R i / (Q2R d / 525600)))
  /\ after run = after (RFactor.event_based_r_factor E (Num i) (Num d) (World ms fs)).
Proof.
  intros _ Hd. cbv zeta.
  assert (Hd' : Q2R d <> 0) by (apply Q2R_pos in Hd; lra).
  pose proof (event_based_r_factor_run E i d ms fs Hd') as H. unfold post in H.
  destruct H as (Hres & _ & Hg & _).
  split; [exact Hres|]. split; [exact Hg|].
  apply event_based_r_factor_same_as_rfactor.
Qed.

Lemma event_based_r_factor_closed_form_witness :
  (0 < 50)%Q /\ (0 < 5)%Q
  /\ result (event_based_r_factor plain_engine (Num 50) (Num 5) (World ∅ []))
     = inl "r_factor"
  /\ (exists g : raster,
        mapset (after (event_based_r_factor plain_engine (Num 50) (Num 5) (World ∅ [])))
          !! "r_factor" = Some g
        /\ forall c, g c =
             Some (0.29 * (1 - 0.72 * exp (-0.05 * Q2R 50))
                   * (Q2R 50 * (Q2R 5 / 60)) * Q2R 50 / (Q2R 5 / 525600)))
  /\ after (event_based_r_factor plain_engine (Num 50) (Num 5) (World ∅ []))
     = after (RFactor.event_based_r_factor plain_engine (Num 50) (Num 5) (World ∅ [])).
Proof.
  split; [reflexivity|]. split; [reflexivity|].
  apply (event_based_r_factor_closed_form plain_engine 50 5 ∅ []); reflexivity.
Defined.

(** C10. For a fixed rain intensity and two positive durations, the
    routine (of r.erosion.py and of r.erosion.rfactor.py alike) returns
    the same name and leaves under it rasters that agree in every cell:
    the duration cancels, and the value is
    [0.29 * (1 - 0.72 * exp (-0.05 * i)) * i^2 * 8760].  This holds when
    the intensity is a number [i], as r.erosion.py passes it, and when it
    is the name of a raster, as r.erosion.rfactor.py passes it: then [i]
    is the value of that raster in the cell. *)
Theorem r_factor_independent_of_duration (E : Engine) (d1 d2 : Q) ms fs :
  (0 < d1)%Q -> (0 < d2)%Q ->
  (forall i : Q,
     let run1 := event_based_r_factor E (Num i) (Num d1) (World ms fs) in
     let run2 := event_based_r_factor E (Num i) (Num d2) (World ms fs) in
     let run1' := RFactor.event_based_r_factor E (Num i) (Num d1) (World ms fs) in
     let run2' := RFactor.event_based_r_factor E (Num i) (Num d2) (World ms fs) in
     result run1 = inl "r_factor" /\ result run2 = inl "r_factor"
     /\ result run1' = inl "r_factor" /\ result run2' = inl "r_factor"
     /\ exists g1 g2 : raster,
          mapset (after run1) !! "r_factor" = Some g1
          /\ mapset (after run2) !! "r_factor" = Some g2
          /\ mapset (after run1') !! "r_factor" = Some g1
          /\ mapset (after run2') !! "r_factor" = Some g2
          /\ forall c,
               g1 c = g2 c
               /\ g1 c = Some (0.29 * (1 - 0.72 * exp (-0.05 * Q2R i)) * Q2R i ^ 2 * 8760))
  /\ (forall (n : string) (intensity : raster),
        n <> "rain_energy" -> n <> "rain_volume" ->
        ms !! n = Some intensity ->
        let run1 := event_based_r_factor E (Map n) (Num d1) (World ms fs) in
        let run2 := event_based_r_factor E (Map n) (Num d2) (World ms fs) in
        let run1' := RFactor.event_based_r_factor E (Map n) (Num d1) (World ms fs) in
        let run2' := RFactor.event_based_r_factor E (Map n) (Num d2) (World ms fs) in
        result run1 = inl "r_factor" /\ result run2 = inl "r_factor"
        /\ result run1' = inl "r_factor" /\ result run2' = inl "r_factor"
        /\ exists g1 g2 g1' g2' : raster,
             mapset (after run1) !! "r_factor" = Some g1
             /\ mapset (after run2) !! "r_factor" = Some g2
             /\ mapset (after run1') !! "r_factor" = Some g1'
             /\ mapset (after run2') !! "r_factor" = Some g2'
             /\ forall c,
                  g1 c = g2 c /\ g1' c = g2' c /\ g1 c = g1' c
                  /\ g1 c = match intensity c with
                            | Some i =>
                                Some (0.29 * (1 - 0.72 * exp (-0.05 * i)) * i ^ 2 * 8760)
                            | None => None
                            end).
Proof.
  intros H1 H2.
  apply Q2R_pos in H1, H2.
  assert (Hd1 : Q2R d1 <> 0) by lra.
  assert (Hd2 : Q2R d2 <> 0) by lra.
  split.
  - intros i. cbv zeta.
    pose proof (event_based_r_factor_run E i d1 ms fs Hd1) as R1.
    pose proof (event_based_r_factor_run E i d2 ms fs Hd2) as R2.
    unfold post in R1, R2.
    destruct R1 as (Hr1 & _ & (g1 & Hg1 & Hc1) & _).
    destruct R2 as (Hr2 & _ & (g2 & Hg2 & Hc2) & _).
    destruct (event_based_r_factor_same_as_rfactor E i d1 ms fs) as [Ha1 Hb1].
    destruct (event_based_r_factor_same_as_rfactor E i d2 ms fs) as [Ha2 Hb2].
    rewrite <- Ha1, <- Ha2, <- Hb1, <- Hb2.
    repeat (split; [assumption|]).
    exists g1, g2. repeat (split; [assumption|]).
    intros c. rewrite Hc1, Hc2. split; f_equal; field; lra.
  - intros n gi Hn1 Hn2 Hn. cbv zeta.
    pose proof (event_based_r_factor_run_raster E n d1 ms fs gi Hn1 Hn2 Hn Hd1) as R1.
    pose proof (event_based_r_factor_run_raster E n d2 ms fs gi Hn1 Hn2 Hn Hd2) as R2.
    pose proof (rfactor_event_based_r_factor_run_raster E n d1 ms fs gi Hn1 Hn2 Hn Hd1)
      as R1'.
    pose proof (rfactor_event_based_r_factor_run_raster E n d2 ms fs gi Hn1 Hn2 Hn Hd2)
      as R2'.
    unfold post in R1, R2, R1', R2'.
    destruct R1 as (Hr1 & g1 & Hg1 & Hc1). destruct R2 as (Hr2 & g2 & Hg2 & Hc2).
    destruct R1' as (Hr1' & g1' & Hg1' & Hc1'). destruct R2' as (Hr2' & g2' & Hg2' & Hc2').
    repeat (split; [assumption|]).
    exists g1, g2, g1', g2'. repeat (split; [assumption|]).
    intros c. rewrite Hc1, Hc2, Hc1', Hc2'. repeat split; reflexivity.
Qed.

Lemma r_factor_independent_of_duration_witness :
  (0 < 5)%Q /\ (0 < 30)%Q
  /\ (exists g1 g2 : raster,
        mapset (after (event_based_r_factor plain_engine (Num 50) (Num 5) (World ∅ [])))
          !! "r_factor" = Some g1
        /\ mapset (after (event_based_r_factor plain_engine (Num 50) (Num 30) (World ∅ [])))
             !! "r_factor" = Some g2
        /\ mapset (after (RFactor.event_based_r_factor plain_engine (Num 50) (Num 5)
                            (World ∅ []))) !! "r_factor" = Some g1
        /\ mapset (after (RFactor.event_based_r_factor plain_engine (Num 50) (Num 30)
                            (World ∅ []))) !! "r_factor" = Some g2
        /\ forall c,
             g1 c = g2 c
             /\ g1 c = Some (0.29 * (1 - 0.72 * exp (-0.05 * Q2R 50)) * Q2R 50 ^ 2 * 8760))
  /\ "rain_intensity" <> "rain_energy" /\ "rain_intensity" <> "rain_volume"
  /\ rain_intensity_50 !! "rain_intensity" = Some (constant 50)
  /\ exists g1 g2 : raster,
       mapset (after (RFactor.event_based_r_factor plain_engine (Map "rain_intensity")
                        (Num 5.0) (World rain_intensity_50 []))) !! "r_factor" = Some g1
       /\ mapset (after (RFactor.event_based_r_factor plain_engine (Map "rain_intensity")
                           (Num 30) (World rain_intensity_50 []))) !! "r_factor" = Some g2
       /\ forall c,
            g1 c = g2 c
            /\ g1 c = Some (0.29 * (1 - 0.72 * exp (-0.05 * 50)) * 50 ^ 2 * 8760).
Proof.
  split; [reflexivity|]. split; [reflexivity|].
  destruct (r_factor_independent_of_duration plain_engine 5 30 ∅ [] eq_refl eq_refl)
    as [Hnum _].
  destruct (r_factor_independent_of_duration plain_engine 5.0 30 rain_intensity_50 []
              eq_refl eq_refl) as [_ Hmap].
  split; [apply (Hnum 50%Q)|].
  split; [discriminate|]. split; [discriminate|].
  assert (Hin : rain_intensity_50 !! "rain_intensity" = Some (constant 50))
    by apply lookup_singleton_eq.
  split; [exact Hin|].
  destruct (Hmap "rain_intensity" (constant 50) ltac:(discriminate) ltac:(discriminate) Hin)
    as (_ & _ & _ & _ & g1 & g2 & g1' & g2' & _ & _ & Hg1' & Hg2' & Hc).
  exists g1', g2'. split; [exact Hg1'|]. split; [exact Hg2'|].
  intros c. destruct (Hc c) as (H12 & H12' & H11' & Hval).
  split; [exact H12'|]. rewrite <- H11'. exact Hval.
Defined.

(** ** The two models *)

Lemma four_rasters_dem : four_rasters !! "dem" = Some (constant 100).
Proof. unfold four_rasters. lookups. reflexivity. Qed.

Lemma four_rasters_rain : four_rasters !! "rain" = Some (constant 310).
Proof. unfold four_rasters. lookups. reflexivity. Qed.

Lemma four_rasters_soil : four_rasters !! "soil" = Some (constant 0.25).
Proof. unfold four_rasters. lookups. reflexivity. Qed.

Lemma four_rasters_cover : four_rasters !! "cover" = Some (constant 0.1).
Proof. unfold four_rasters. lookups. reflexivity. Qed.

(** C8. In both models, run with well-named rasters on a mapset that has
    the inputs, the [flow_accumulation] output is, cell by cell, the flow
    accumulation of the elevation times the resolution of the region. *)
Theorem flow_accumulation_is_flowacc_times_resolution (E : Engine)
    (elevation erosion flow_accumulation r_factor c_factor k_factor ls_factor : string)
    (m n : Q) ms fs (z gr gk gc : raster) :
  ms !! elevation = Some z ->
  ms !! r_factor = Some gr ->
  ms !! k_factor = Some gk ->
  ms !! c_factor = Some gc ->
  (well_named rusle_scratch [erosion; flow_accumulation; ls_factor]
     [elevation; r_factor; c_factor; k_factor] = true ->
   let run := rusle E elevation erosion flow_accumulation r_factor c_factor k_factor
                ls_factor m n (World ms fs) in
   result run = inl tt
   /\ exists fa : raster,
        mapset (after run) !! flow_accumulation = Some fa
        /\ forall c, fa c = v_mul (accumulation_of E z c) (Some (Q2R (nsres E))))
  /\ (well_named usped_scratch [erosion; flow_accumulation; ls_factor]
        [elevation; r_factor; c_factor; k_factor] = true ->
      let run := usped E elevation erosion flow_accumulation r_factor c_factor k_factor
                   ls_factor m n (World ms fs) in
      result run = inl tt
      /\ exists fa : raster,
           mapset (after run) !! flow_accumulation = Some fa
           /\ forall c, fa c = v_mul (accumulation_of E z c) (Some (Q2R (nsres E)))).
Proof.
  intros Hz Hr Hk Hc. split; intros Hn; cbv zeta.
  - pose proof (rusle_run E _ _ _ _ _ _ _ m n ms fs z gr gk gc Hn Hz Hr Hk Hc) as H.
    unfold post in H.
    destruct H as (Hres & _ & fa & ls & er & Hfa & _ & _ & Hfac & _).
    split; [exact Hres|]. exists fa. split; assumption.
  - pose proof (usped_run E _ _ _ _ _ _ _ m n ms fs z gr gk gc Hn Hz Hr Hk Hc) as H.
    unfold post in H.
    destruct H as (Hres & _ & fa & ls & er & fl & qx & qy & Hfa & _ & _ & Hfac & _).
    split; [exact Hres|]. exists fa. split; assumption.
Qed.

Lemma flow_accumulation_is_flowacc_times_resolution_witness :
  four_rasters !! "dem" = Some (constant 100)
  /\ four_rasters !! "rain" = Some (constant 310)
  /\ four_rasters !! "soil" = Some (constant 0.25)
  /\ four_rasters !! "cover" = Some (constant 0.1)
  /\ well_named rusle_scratch ["erosion"; "flow_accumulation"; "ls_factor"]
       ["dem"; "rain"; "cover"; "soil"] = true
  /\ well_named usped_scratch ["erosion"; "flow_accumulation"; "ls_factor"]
       ["dem"; "rain"; "cover"; "soil"] = true
  /\ (exists fa : raster,
        mapset (after (rusle plain_engine "dem" "erosion" "flow_accumulation" "rain"
                         "cover" "soil" "ls_factor" 1.5 1.2 (World four_rasters [])))
          !! "flow_accumulation" = Some fa
        /\ forall c, fa c = v_mul (Some 22.1) (Some (Q2R 1)))
  /\ (exists fa : raster,
        mapset (after (usped plain_engine "dem" "erosion" "flow_accumulation" "rain"
                         "cover" "soil" "ls_factor" 1.5 1.2 (World four_rasters [])))
          !! "flow_accumulation" = Some fa
        /\ forall c, fa c = v_mul (Some 22.1) (Some (Q2R 1))).
Proof.
  split; [exact four_rasters_dem|]. split; [exact four_rasters_rain|].
  split; [exact four_rasters_soil|]. split; [exact four_rasters_cover|].
  split; [vm_compute; reflexivity|]. split; [vm_compute; reflexivity|].
  destruct (flow_accumulation_is_flowacc_times_resolution plain_engine
              "dem" "erosion" "flow_accumulation" "rain" "cover" "soil" "ls_factor"
              1.5 1.2 four_rasters [] _ _ _ _
              four_rasters_dem four_rasters_rain four_rasters_soil four_rasters_cover)
    as [Hrusle Husped].
  split.
  - apply Hrusle. vm_compute. reflexivity.
  - apply Husped. vm_compute. reflexivity.
Defined.

(** C6. In the RUSLE model, run with well-named rasters on a mapset that
    has the inputs, the [erosion] output is, cell by cell,
    [sediment_flow * 1000 / 10000] with
    [sediment_flow = r_factor * k_factor * ls_factor * c_factor]; the only
    expression the run assigns to the output is [sedflow * 1000 / 10000],
    so no division by the seconds of a year is applied to it. *)
Theorem rusle_erosion_unit_conversion (E : Engine)
    (elevation erosion flow_accumulation r_factor c_factor k_factor ls_factor : string)
    (m n : Q) ms fs (z gr gk gc : raster) :
  well_named rusle_scratch [erosion; flow_accumulation; ls_factor]
    [elevation; r_factor; c_factor; k_factor] = true ->
  ms !! elevation = Some z ->
  ms !! r_factor = Some gr ->
  ms !! k_factor = Some gk ->
  ms !! c_factor = Some gc ->
  let run := rusle E elevation erosion flow_accumulation r_factor c_factor k_factor
               ls_factor m n (World ms fs) in
  result run = inl tt
  /\ assigned_to erosion (calls run) = [Div (Mul (Map "sedflow") (Num 1000)) (Num 10000)]
  /\ exists ls er : raster,
       mapset (after run) !! ls_factor = Some ls
       /\ mapset (after run) !! erosion = Some er
       /\ forall c, er c =
            v_div (v_mul (v_mul (v_mul (v_mul (gr c) (gk c)) (ls c)) (gc c))
                         (Some 1000))
                  (Some 10000).
Proof.
  intros Hn Hz Hr Hk Hc. cbv zeta.
  pose proof (rusle_run E _ _ _ _ _ _ _ m n ms fs z gr gk gc Hn Hz Hr Hk Hc) as H.
  unfold post in H.
  destruct H as (Hres & _ & fa & ls & er & _ & Hls & Her & _ & _ & Herc & _ & Hj).
  split; [exact Hres|]. split; [exact Hj|].
  exists ls, er. repeat split; assumption.
Qed.

Lemma rusle_erosion_unit_conversion_witness :
  well_named rusle_scratch ["erosion"; "flow_accumulation"; "ls_factor"]
    ["dem"; "rain"; "cover"; "soil"] = true
  /\ four_rasters !! "dem" = Some (constant 100)
  /\ four_rasters !! "rain" = Some (constant 310)
  /\ four_rasters !! "soil" = Some (constant 0.25)
  /\ four_rasters !! "cover" = Some (constant 0.1)
  /\ result (rusle plain_engine "dem" "erosion" "flow_accumulation" "rain" "cover" "soil"
               "ls_factor" 1.5 1.2 (World four_rasters [])) = inl tt
  /\ assigned_to "erosion"
       (calls (rusle plain_engine "dem" "erosion" "flow_accumulation" "rain" "cover"
                 "soil" "ls_factor" 1.5 1.2 (World four_rasters [])))
     = [Div (Mul (Map "sedflow") (Num 1000)) (Num 10000)].
Proof.
  split; [vm_compute; reflexivity|].
  split; [exact four_rasters_dem|]. split; [exact four_rasters_rain|].
  split; [exact four_rasters_soil|]. split; [exact four_rasters_cover|].
  destruct (rusle_erosion_unit_conversion plain_engine
              "dem" "erosion" "flow_accumulation" "rain" "cover" "soil" "ls_factor"
              1.5 1.2 four_rasters [] _ _ _ _ eq_refl
              four_rasters_dem four_rasters_rain four_rasters_soil four_rasters_cover)
    as (Hres & Hj & _).
  split; [exact Hres | exact Hj].
Defined.

(** C7. In the USPED model, run with well-named rasters on a mapset that
    has the inputs, the [erosion] output is, cell by cell,
    [qsxdx + qsydy], where [qsxdx] and [qsydy] are the border-grown x and y
    partial derivatives of [qsx = sediment_flux * cos(aspect)] and
    [qsy = sediment_flux * sin(aspect)], the sediment flux is the sediment
    flow [r_factor * k_factor * c_factor * ls_factor] times 1000 over
    10000, and the aspect is the border-grown aspect of the elevation. *)
Theorem usped_erosion_is_flux_divergence (E : Engine)
    (elevation erosion flow_accumulation r_factor c_factor k_factor ls_factor : string)
    (m n : Q) ms fs (z gr gk gc : raster) :
  well_named usped_scratch [erosion; flow_accumulation; ls_factor]
    [elevation; r_factor; c_factor; k_factor] = true ->
  ms !! elevation = Some z ->
  ms !! r_factor = Some gr ->
  ms !! k_factor = Some gk ->
  ms !! c_factor = Some gc ->
  let run := usped E elevation erosion flow_accumulation r_factor c_factor k_factor
               ls_factor m n (World ms fs) in
  result run = inl tt
  /\ exists ls er sediment_flux qsx qsy : raster,
       mapset (after run) !! ls_factor = Some ls
       /\ mapset (after run) !! erosion = Some er
       /\ (forall c, sediment_flux c =
             v_div (v_mul (v_mul (v_mul (v_mul (gr c) (gk c)) (gc c)) (ls c))
                          (Some 1000))
                   (Some 10000))
       /\ (forall c, qsx c = v_mul (sediment_flux c) (v_cos (grow_of E (aspect_of E z) c)))
       /\ (forall c, qsy c = v_mul (sediment_flux c) (v_sin (grow_of E (aspect_of E z) c)))
       /\ forall c, er c = v_add (grow_of E (dx_of E qsx) c) (grow_of E (dy_of E qsy) c).
Proof.
  intros Hn Hz Hr Hk Hc. cbv zeta.
  pose proof (usped_run E _ _ _ _ _ _ _ m n ms fs z gr gk gc Hn Hz Hr Hk Hc) as H.
  unfold post in H.
  destruct H as (Hres & _ & fa & ls & er & fl & qx & qy
                 & _ & Hls & Her & _ & _ & Hfl & Hqx & Hqy & Herc & _).
  split; [exact Hres|].
  exists ls, er, fl, qx, qy. repeat split; assumption.
Qed.

Lemma usped_erosion_is_flux_divergence_witness :
  well_named usped_scratch ["erosion"; "flow_accumulation"; "ls_factor"]
    ["dem"; "rain"; "cover"; "soil"] = true
  /\ four_rasters !! "dem" = Some (constant 100)
  /\ four_rasters !! "rain" = Some (constant 310)
  /\ four_rasters !! "soil" = Some (constant 0.25)
  /\ four_rasters !! "cover" = Some (constant 0.1)
  /\ result (usped plain_engine "dem" "erosion" "flow_accumulation" "rain" "cover" "soil"
               "ls_factor" 1.5 1.2 (World four_rasters [])) = inl tt
  /\ exists er : raster,
       mapset (after (usped plain_engine "dem" "erosion" "flow_accumulation" "rain"
                        "cover" "soil" "ls_factor" 1.5 1.2 (World four_rasters [])))
         !! "erosion" = Some er
       /\ forall c, er c = v_add (Some 0) (Some 0).
Proof.
  split; [vm_compute; reflexivity|].
  split; [exact four_rasters_dem|]. split; [exact four_rasters_rain|].
  split; [exact four_rasters_soil|]. split; [exact four_rasters_cover|].
  destruct (usped_erosion_is_flux_divergence plain_engine
              "dem" "erosion" "flow_accumulation" "rain" "cover" "soil" "ls_factor"
              1.5 1.2 four_rasters [] _ _ _ _ eq_refl
              four_rasters_dem four_rasters_rain four_rasters_soil four_rasters_cover)
    as (Hres & ls & er & fl & qx & qy & _ & Her & _ & _ & _ & Herc).
  split; [exact Hres|]. exists er. split; [exact Her | exact Herc].
Defined.

(** ** Flat terrain *)

Lemma Rpower_pos x y : 0 < Rpower x y.
Proof. unfold Rpower. apply exp_pos. Qed.

(** On flat terrain the slope term of the RUSLE [ls_factor] is [0 ^ n]. *)
Lemma flat_slope_term n : v_pow (v_div (v_sin (Some 0)) (Some 5.14)) (Some n) = c_pow 0 n.
Proof.
  cbn [v_sin lift1]. rewrite sin_deg_0, v_div_some by lra.
  cbn [v_pow lift2]. f_equal. lra.
Qed.

(** C2, as the specification states it, fails: with the default exponents
    [m = 1.5] and [n = 1.2] on a plain of no slope, the [ls_factor] of the
    RUSLE model is 0 in the first cell, and [(m+1) * (flowacc/22.1)^m] is
    not. *)
Lemma rusle_ls_factor_flat_counterexample :
  let E := plain_engine in
  let run := rusle E "dem" "erosion" "flow_accumulation" "rain" "cover" "soil"
               "ls_factor" 1.5 1.2 (World four_rasters []) in
  (forall c, grow_of E (slope_of E (constant 100)) c = Some 0)
  /\ four_rasters !! "dem" = Some (constant 100)
  /\ result run = inl tt
  /\ exists fa ls : raster,
       mapset (after run) !! "flow_accumulation" = Some fa
       /\ mapset (after run) !! "ls_factor" = Some ls
       /\ ls (0, 0)%nat = Some 0
       /\ ls (0, 0)%nat <> flat_ls_reduction 1.5 fa (0, 0)%nat.
Proof.
  cbv zeta. split; [reflexivity|]. split; [exact four_rasters_dem|].
  pose proof (rusle_run plain_engine "dem" "erosion" "flow_accumulation" "rain" "cover"
                "soil" "ls_factor" 1.5 1.2 four_rasters [] _ _ _ _ eq_refl
                four_rasters_dem four_rasters_rain four_rasters_soil four_rasters_cover)
    as H.
  unfold post in H.
  destruct H as (Hres & _ & fa & ls & er & Hfa & Hls & _ & Hfac & Hlsc & _).
  split; [exact Hres|]. exists fa, ls. split; [exact Hfa|]. split; [exact Hls|].
  assert (Hflat : flat_ls_reduction 1.5 fa (0, 0)%nat
                  = Some ((1.5 + 1) * Rpower (22.1 * 1 / 22.1) 1.5)).
  { unfold flat_ls_reduction. rewrite Hfac. cbn [plain_engine accumulation_of nsres].
    unfold constant. rewrite Q2R_1. cbn [v_mul lift2].
    rewrite v_div_some by lra. cbn [v_pow lift2].
    rewrite c_pow_positive_base by lra. reflexivity. }
  assert (Hzero : ls (0, 0)%nat = Some 0).
  { rewrite Hlsc.
    change (grow_of plain_engine (slope_of plain_engine (constant 100)) (0, 0)%nat)
      with (Some 0).
    rewrite flat_slope_term, c_pow_zero_base by lra.
    fold (flat_ls_reduction 1.5 fa (0, 0)%nat). rewrite Hflat.
    cbn [v_mul lift2]. f_equal. lra. }
  split; [exact Hzero|].
  rewrite Hzero, Hflat. intros Heq. injection Heq as Heq.
  pose proof (Rpower_pos (22.1 * 1 / 22.1) 1.5). lra.
Qed.

(** C2, amended.  On flat terrain (slope 0 in every cell), with
    well-named rasters on a mapset that has the inputs, the RUSLE
    [ls_factor] is [(m+1) * (flowacc/22.1)^m * 0^n] in every cell: it is
    [(m+1) * (flowacc/22.1)^m] when [n = 0], and that value times 0 when
    [n > 0]. *)
Theorem rusle_ls_factor_on_flat_terrain (E : Engine)
    (elevation erosion flow_accumulation r_factor c_factor k_factor ls_factor : string)
    (m n : Q) ms fs (z gr gk gc : raster) :
  well_named rusle_scratch [erosion; flow_accumulation; ls_factor]
    [elevation; r_factor; c_factor; k_factor] = true ->
  ms !! elevation = Some z ->
  ms !! r_factor = Some gr ->
  ms !! k_factor = Some gk ->
  ms !! c_factor = Some gc ->
  (forall c, grow_of E (slope_of E z) c = Some 0) ->
  let run := rusle E elevation erosion flow_accumulation r_factor c_factor k_factor
               ls_factor m n (World ms fs) in
  result run = inl tt
  /\ exists fa ls : raster,
       mapset (after run) !! flow_accumulation = Some fa
       /\ mapset (after run) !! ls_factor = Some ls
       /\ (forall c, fa c = v_mul (accumulation_of E z c) (Some (Q2R (nsres E))))
       /\ (forall c, ls c = v_mul (flat_ls_reduction m fa c) (c_pow 0 (Q2R n)))
       /\ ((n == 0)%Q -> forall c, ls c = flat_ls_reduction m fa c)
       /\ ((0 < n)%Q -> forall c, ls c = v_mul (flat_ls_reduction m fa c) (Some 0)).
Proof.
  intros Hn Hz Hr Hk Hc Hflat. cbv zeta.
  pose proof (rusle_run E _ _ _ _ _ _ _ m n ms fs z gr gk gc Hn Hz Hr Hk Hc) as H.
  unfold post in H.
  destruct H as (Hres & _ & fa & ls & er & Hfa & Hls & _ & Hfac & Hlsc & _).
  split; [exact Hres|]. exists fa, ls.
  assert (Hall : forall c, ls c = v_mul (flat_ls_reduction m fa c) (c_pow 0 (Q2R n))).
  { intros c. rewrite Hlsc, Hflat, flat_slope_term. reflexivity. }
  repeat (split; [assumption|]). split.
  - intros H0 c. rewrite Hall. apply Qeq_eqR in H0. rewrite H0, RMicromega.Q2R_0.
    rewrite c_pow_zero_exponent. apply v_mul_one_r.
  - intros H0 c. rewrite Hall. apply Q2R_pos in H0.
    rewrite c_pow_zero_base by exact H0. reflexivity.
Qed.

Lemma rusle_ls_factor_on_flat_terrain_witness :
  well_named rusle_scratch ["erosion"; "flow_accumulation"; "ls_factor"]
    ["dem"; "rain"; "cover"; "soil"] = true
  /\ four_rasters !! "dem" = Some (constant 100)
  /\ four_rasters !! "rain" = Some (constant 310)
  /\ four_rasters !! "soil" = Some (constant 0.25)
  /\ four_rasters !! "cover" = Some (constant 0.1)
  /\ (forall c, grow_of plain_engine (slope_of plain_engine (constant 100)) c = Some 0)
  /\ (0 < 1.2)%Q
  /\ exists fa ls : raster,
       mapset (after (rusle plain_engine "dem" "erosion" "flow_accumulation" "rain"
                        "cover" "soil" "ls_factor" 1.5 1.2 (World four_rasters [])))
         !! "ls_factor" = Some ls
       /\ forall c, ls c = v_mul (flat_ls_reduction 1.5 fa c) (Some 0).
Proof.
  split; [vm_compute; reflexivity|].
  split; [exact four_rasters_dem|]. split; [exact four_rasters_rain|].
  split; [exact four_rasters_soil|]. split; [exact four_rasters_cover|].
  split; [intros c; reflexivity|]. split; [reflexivity|].
  destruct (rusle_ls_factor_on_flat_terrain plain_engine
              "dem" "erosion" "flow_accumulation" "rain" "cover" "soil" "ls_factor"
              1.5 1.2 four_rasters [] _ _ _ _ eq_refl
              four_rasters_dem four_rasters_rain four_rasters_soil four_rasters_cover
              (fun c => eq_refl))
    as (_ & fa & ls & _ & Hls & _ & _ & _ & Hpos).
  exists fa, ls. split; [exact Hls|]. apply Hpos. reflexivity.
Defined.

(** ** The order of the factor rasters *)

Lemma well_named_inputs_permutation scratch outputs inputs inputs' :
  inputs ≡ₚ inputs' ->
  well_named scratch outputs inputs = true ->
  well_named scratch outputs inputs' = true.
Proof.
  intros Hp H. unfold well_named in *.
  apply bool_decide_eq_true_1 in H. apply bool_decide_eq_true_2.
  destruct H as [Hnd Hin]. split; [exact Hnd|].
  rewrite <- Hp. exact Hin.
Qed.

(** The sediment flow does not depend on which factor stands where. *)
Lemma factor_product_permutation (a b c a' b' c' l : value) :
  [a'; b'; c'] ∈ permutations [a; b; c] ->
  v_mul (v_mul (v_mul a' b') l) c' = v_mul (v_mul (v_mul a b) l) c.
Proof.
  intros H. vm_compute in H.
  repeat (apply elem_of_cons in H as [[= -> -> ->]|H]); [ .. | by apply elem_of_nil in H ].
  all: destruct a, b, c, l; cbn [v_mul lift2]; try reflexivity; f_equal; ring.
Qed.

(** C9. With constant R-, K- and C-factors (no factor raster and no rain
    given), whatever the order in which [main] takes its three input
    blocks, the run ends with the same result and the same mapset as
    [main] itself, the erosion output included.  And in the RUSLE model
    the erosion output is the same, cell by cell, when the factor rasters
    change places in the product. *)
Theorem rusle_erosion_invariant_under_factor_order (E : Engine) :
  (forall (o : options) ms fs (order : list factor),
     opt_rain_intensity o = None ->
     opt_r_factor o = "" -> opt_c_factor o = "" -> opt_k_factor o = "" ->
     order ∈ permutations [R_factor; C_factor; K_factor] ->
     let permuted := main_in_order E order o (World ms fs) in
     let original := main E o (World ms fs) in
     result permuted = result original
     /\ mapset (after permuted) = mapset (after original)
     /\ mapset (after permuted) !! opt_erosion o
        = mapset (after original) !! opt_erosion o)
  /\ (forall (elevation erosion flow_accumulation r_factor c_factor k_factor
              ls_factor r' c' k' : string) (m n : Q) ms fs (z gr gk gc : raster),
        well_named rusle_scratch [erosion; flow_accumulation; ls_factor]
          [elevation; r_factor; c_factor; k_factor] = true ->
        ms !! elevation = Some z ->
        ms !! r_factor = Some gr ->
        ms !! k_factor = Some gk ->
        ms !! c_factor = Some gc ->
        [r'; c'; k'] ∈ permutations [r_factor; c_factor; k_factor] ->
        exists er er' : raster,
          mapset (after (rusle E elevation erosion flow_accumulation r_factor c_factor
                           k_factor ls_factor m n (World ms fs))) !! erosion = Some er
          /\ mapset (after (rusle E elevation erosion flow_accumulation r' c' k'
                              ls_factor m n (World ms fs))) !! erosion = Some er'
          /\ forall c, er' c = er c).
Proof.
  split.
  - intros o ms fs order Hi Hr Hc Hk Hord. cbv zeta.
    pose proof (inputs_in_order_constant E order o ms fs Hi Hr Hc Hk Hord) as H1.
    pose proof (constant_inputs E o ms fs Hi Hr Hc Hk) as H2.
    unfold post in H1, H2.
    destruct H1 as ((names & Hres1 & HR & HC & HK) & Hw1).
    destruct H2 as (Hres2 & Hw2).
    unfold main_in_order, main.
    rewrite (bind_inl _ _ _ _ Hres1), (bind_inl _ _ _ _ Hres2).
    cbn [result after]. rewrite Hw1, Hw2, HR, HC, HK.
    repeat split; reflexivity.
  - intros elevation erosion flow_accumulation r_factor c_factor k_factor ls_factor
           r' c' k' m n ms fs z gr gk gc Hn Hz Hr Hk Hc Hperm.
    assert (Hn' : well_named rusle_scratch [erosion; flow_accumulation; ls_factor]
                    [elevation; r'; c'; k'] = true).
    { apply (well_named_inputs_permutation _ _ [elevation; r_factor; c_factor; k_factor]);
        [|exact Hn].
      apply Permutation_skip. apply permutations_Permutation. exact Hperm. }
    pose proof (rusle_run E _ _ _ _ _ _ _ m n ms fs z gr gk gc Hn Hz Hr Hk Hc) as H.
    unfold post in H.
    destruct H as (_ & _ & fa & ls & er & Hfa & Hls & Her & Hfac & Hlsc & Herc & _).
    assert (Hlook : exists gr' gk' gc' : raster,
               ms !! r' = Some gr' /\ ms !! k' = Some gk' /\ ms !! c' = Some gc'
               /\ forall c, [gr' c; gc' c; gk' c] ∈ permutations [gr c; gc c; gk c]).
    { pose proof Hperm as Hp. vm_compute in Hp.
      repeat (apply elem_of_cons in Hp as [[= -> -> ->]|Hp]);
        [ .. | by apply elem_of_nil in Hp ].
      - exists gr, gk, gc. repeat (split; [assumption|]). intros c. apply permutations_refl.
      - exists gc, gk, gr. repeat (split; [assumption|]). intros c.
        apply permutations_Permutation. apply perm_swap.
      - exists gc, gr, gk. repeat (split; [assumption|]). intros c.
        apply permutations_Permutation.
        etransitivity; [apply perm_swap|]. apply Permutation_skip, perm_swap.
      - exists gr, gc, gk. repeat (split; [assumption|]). intros c.
        apply permutations_Permutation. apply Permutation_skip, perm_swap.
      - exists gk, gc, gr. repeat (split; [assumption|]). intros c.
        apply permutations_Permutation.
        etransitivity; [apply Permutation_skip, perm_swap|]. apply perm_swap.
      - exists gk, gr, gc. repeat (split; [assumption|]). intros c.
        apply permutations_Permutation.
        etransitivity; [apply Permutation_skip, perm_swap|].
        etransitivity; [apply perm_swap|]. apply Permutation_skip, perm_swap. }
    destruct Hlook as (gr' & gk' & gc' & Hr' & Hk' & Hc' & Hvals).
    pose proof (rusle_run E _ _ _ _ _ _ _ m n ms fs z gr' gk' gc' Hn' Hz Hr' Hk' Hc') as H.
    unfold post in H.
    destruct H as (_ & _ & fa' & ls' & er' & Hfa' & Hls' & Her' & Hfac' & Hlsc' & Herc' & _).
    exists er, er'. split; [exact Her|]. split; [exact Her'|].
    intros c. rewrite Herc, Herc', Hlsc, Hlsc', Hfac, Hfac'.
    f_equal. f_equal.
    (* the product of [r' k' ls c'] against that of [r k ls c] *)
    match goal with
    | |- v_mul (v_mul (v_mul _ _) ?t) _ = _ => generalize t; intros l
    end.
    specialize (Hvals c).
    assert (Hv : [gr' c; gk' c; gc' c] ∈ permutations [gr c; gk c; gc c]).
    { apply permutations_Permutation. apply permutations_Permutation in Hvals.
      etransitivity; [apply Permutation_skip, perm_swap|].
      etransitivity; [exact Hvals|]. apply Permutation_skip, perm_swap. }
    apply (factor_product_permutation _ _ _ _ _ _ l Hv).
Qed.

Lemma rusle_erosion_invariant_under_factor_order_witness :
  [K_factor; R_factor; C_factor] ∈ permutations [R_factor; C_factor; K_factor]
  /\ result (main_in_order plain_engine [K_factor; R_factor; C_factor]
               (default_options "dem") (World dem_only []))
     = result (main plain_engine (default_options "dem") (World dem_only []))
  /\ mapset (after (main_in_order plain_engine [K_factor; R_factor; C_factor]
                      (default_options "dem") (World dem_only []))) !! "erosion"
     = mapset (after (main plain_engine (default_options "dem") (World dem_only [])))
         !! "erosion"
  /\ well_named rusle_scratch ["erosion"; "flow_accumulation"; "ls_factor"]
       ["dem"; "rain"; "cover"; "soil"] = true
  /\ four_rasters !! "dem" = Some (constant 100)
  /\ four_rasters !! "rain" = Some (constant 310)
  /\ four_rasters !! "soil" = Some (constant 0.25)
  /\ four_rasters !! "cover" = Some (constant 0.1)
  /\ ["soil"; "rain"; "cover"] ∈ permutations ["rain"; "cover"; "soil"]
  /\ exists er er' : raster,
       mapset (after (rusle plain_engine "dem" "erosion" "flow_accumulation" "rain"
                        "cover" "soil" "ls_factor" 1.5 1.2 (World four_rasters [])))
         !! "erosion" = Some er
       /\ mapset (after (rusle plain_engine "dem" "erosion" "flow_accumulation" "soil"
                           "rain" "cover" "ls_factor" 1.5 1.2 (World four_rasters [])))
            !! "erosion" = Some er'
       /\ forall c, er' c = er c.
Proof.
  assert (Hperm : [K_factor; R_factor; C_factor]
                    ∈ permutations [R_factor; C_factor; K_factor]).
  { apply permutations_Permutation.
    etransitivity; [apply Permutation_skip, perm_swap|]. apply perm_swap. }
  assert (Hperm' : ["soil"; "rain"; "cover"] ∈ permutations ["rain"; "cover"; "soil"]).
  { apply permutations_Permutation.
    etransitivity; [apply Permutation_skip, perm_swap|]. apply perm_swap. }
  split; [exact Hperm|].
  destruct (rusle_erosion_invariant_under_factor_order plain_engine) as [Horder Hproduct].
  destruct (Horder (default_options "dem") dem_only [] [K_factor; R_factor; C_factor]
              eq_refl eq_refl eq_refl eq_refl Hperm) as (Hres & _ & Her).
  split; [exact Hres|]. split; [exact Her|].
  split; [vm_compute; reflexivity|].
  split; [exact four_rasters_dem|]. split; [exact four_rasters_rain|].
  split; [exact four_rasters_soil|]. split; [exact four_rasters_cover|].
  split; [exact Hperm'|].
  exact (Hproduct "dem" "erosion" "flow_accumulation" "rain" "cover" "soil" "ls_factor"
           "soil" "rain" "cover" 1.5%Q 1.2%Q four_rasters [] _ _ _ _ eq_refl
           four_rasters_dem four_rasters_rain four_rasters_soil four_rasters_cover Hperm').
Defined.

(** ** Which R-factor [main] uses *)

(** C5, as the specification states it, fails: with [rain_intensity] given
    and [rain_duration] not, the event-based path is taken all the same
    (its first command is in the journal), and the run stops there. *)
Lemma event_based_path_without_duration :
  let run := alternative_inputs plain_engine storm_without_duration (World dem_only []) in
  opt_rain_duration storm_without_duration = None
  /\ event_based_path (calls run) = true
  /\ result run = inr (CalledModuleError "r.mapcalc").
Proof.
  cbv zeta. split; [reflexivity|]. split.
  - apply event_based_path_iff. cbn. eauto.
  - pose proof (inputs_without_duration plain_engine storm_without_duration dem_only []
                  50%Z eq_refl eq_refl) as H.
    unfold post in H. apply H.
Qed.

(** C5, amended.  The event-based path is taken exactly when
    [rain_intensity] is given, whether [rain_duration] is given or not.
    With both given, the model reads [r_factor], and the raster under that
    name is the one [event_based_r_factor] computes, whatever [r_factor]
    raster or constant was given.  Without [rain_intensity] and without an
    [r_factor] raster, [r_factor] is the constant [r_factor_value] (310.0
    by default); and when [rain_intensity] is not given or [rain_duration]
    is, [k_factor] and [c_factor] are the constants [k_factor_value] (0.25
    by default) and [c_factor_value] (0.1 by default) when no raster is
    given for them. *)
Theorem alternative_inputs_by_rain_intensity (E : Engine) (o : options) ms fs :
  let run := alternative_inputs E o (World ms fs) in
  (event_based_path (calls run) = true <-> is_Some (opt_rain_intensity o))
  /\ (forall i d,
        opt_rain_intensity o = Some i -> opt_rain_duration o = Some d ->
        (exists c k, result run = inl ("r_factor", c, k))
        /\ mapset (after run) !! "r_factor"
           = mapset (after (event_based_r_factor E (Num (inject_Z i)) (Num (inject_Z d))
                              (World ms fs))) !! "r_factor")
  /\ (opt_rain_intensity o = None -> opt_r_factor o = "" ->
      (exists c k, result run = inl ("r_factor", c, k))
      /\ mapset (after run) !! "r_factor"
         = Some (constant (Q2R (opt_r_factor_value o))))
  /\ (opt_rain_intensity o = None \/ is_Some (opt_rain_duration o) ->
      opt_k_factor o = "" ->
      (exists r c, result run = inl (r, c, "k_factor"))
      /\ mapset (after run) !! "k_factor"
         = Some (constant (Q2R (opt_k_factor_value o))))
  /\ (opt_rain_intensity o = None \/ is_Some (opt_rain_duration o) ->
      opt_c_factor o = "" ->
      (exists r k, result run = inl (r, "c_factor", k))
      /\ mapset (after run) !! "c_factor"
         = Some (constant (Q2R (opt_c_factor_value o))))
  /\ (forall elevation,
        opt_r_factor_value (default_options elevation) = 310.0%Q
        /\ opt_k_factor_value (default_options elevation) = 0.25%Q
        /\ opt_c_factor_value (default_options elevation) = 0.1%Q).
Proof.
  cbv zeta.
  split; [apply event_based_path_iff|].
  split.
  { intros i d Hi Hd.
    cut (post (event_based_r_factor E (Num (inject_Z i)) (Num (inject_Z d))) (World ms fs)
           (fun _ w1 _ =>
              post (alternative_inputs E o) (World ms fs)
                (fun r w _ =>
                   (exists c k, r = inl ("r_factor", c, k))
                   /\ mapset w !! "r_factor" = mapset w1 !! "r_factor"))).
    { unfold post. tauto. }
    unfold event_based_r_factor. repeat step.
    unfold alternative_inputs, r_factor_input, c_factor_input, k_factor_input,
      event_based_r_factor.
    rewrite Hi, Hd. cbn [subst_int].
    destruct (py_not (opt_c_factor o)), (py_not (opt_k_factor o)).
    all: repeat step; subst; cbn [mapset];
      (split; [eauto | lookups; reflexivity]). }
  split.
  { intros Hi Hr.
    cut (post (alternative_inputs E o) (World ms fs)
           (fun r w _ =>
              (exists c k, r = inl ("r_factor", c, k))
              /\ mapset w !! "r_factor" = Some (constant (Q2R (opt_r_factor_value o))))).
    { unfold post. tauto. }
    unfold alternative_inputs, r_factor_input, c_factor_input, k_factor_input.
    rewrite Hi, Hr. cbn [py_not].
    destruct (py_not (opt_c_factor o)), (py_not (opt_k_factor o)).
    all: repeat step; subst; cbn [mapset];
      (split; [eauto | lookups; reflexivity]). }
  split.
  { intros Hok Hk.
    cut (post (alternative_inputs E o) (World ms fs)
           (fun r w _ =>
              (exists r' c, r = inl (r', c, "k_factor"))
              /\ mapset w !! "k_factor" = Some (constant (Q2R (opt_k_factor_value o))))).
    { unfold post. tauto. }
    unfold alternative_inputs, r_factor_input, c_factor_input, k_factor_input,
      event_based_r_factor.
    rewrite Hk. cbn [py_not].
    destruct Hok as [Hi|[d Hd]].
    - rewrite Hi. destruct (py_not (opt_r_factor o)), (py_not (opt_c_factor o)).
      all: repeat step; subst; cbn [mapset];
        (split; [eauto | lookups; reflexivity]).
    - rewrite Hd. destruct (opt_rain_intensity o) as [i|]; cbn [subst_int];
        destruct (py_not (opt_r_factor o)), (py_not (opt_c_factor o)).
      all: repeat step; subst; cbn [mapset];
        (split; [eauto | lookups; reflexivity]). }
  split.
  { intros Hok Hc.
    cut (post (alternative_inputs E o) (World ms fs)
           (fun r w _ =>
              (exists r' k, r = inl (r', "c_factor", k))
              /\ mapset w !! "c_factor" = Some (constant (Q2R (opt_c_factor_value o))))).
    { unfold post. tauto. }
    unfold alternative_inputs, r_factor_input, c_factor_input, k_factor_input,
      event_based_r_factor.
    rewrite Hc. cbn [py_not].
    destruct Hok as [Hi|[d Hd]].
    - rewrite Hi. destruct (py_not (opt_r_factor o)), (py_not (opt_k_factor o)).
      all: repeat step; subst; cbn [mapset];
        (split; [eauto | lookups; reflexivity]).
    - rewrite Hd. destruct (opt_rain_intensity o) as [i|]; cbn [subst_int];
        destruct (py_not (opt_r_factor o)), (py_not (opt_k_factor o)).
      all: repeat step; subst; cbn [mapset];
        (split; [eauto | lookups; reflexivity]). }
  intros elevation. repeat split; reflexivity.
Qed.

Lemma alternative_inputs_by_rain_intensity_witness :
  opt_rain_intensity storm = Some 50%Z
  /\ opt_rain_duration storm = Some 5%Z
  /\ (exists c k,
        result (alternative_inputs plain_engine storm (World dem_only []))
        = inl ("r_factor", c, k))
  /\ mapset (after (alternative_inputs plain_engine storm (World dem_only [])))
       !! "r_factor"
     = mapset (after (event_based_r_factor plain_engine (Num (inject_Z 50))
                        (Num (inject_Z 5)) (World dem_only []))) !! "r_factor".
Proof.
  split; [reflexivity|]. split; [reflexivity|].
  destruct (alternative_inputs_by_rain_intensity plain_engine storm dem_only [])
    as (_ & Hboth & _).
  exact (Hboth 50%Z 5%Z eq_refl eq_refl).
Defined.

(** ** Cleanup at exit *)

(** The commands [r.erosion elevation=dem rain_intensity=50] sends before it
    stops, and the rasters the process leaves. *)
Example journal_without_duration :
  journal (script plain_engine storm_without_duration dem_only)
  = [Cmd_mapcalc "rain_energy"
       (Mul (Num 0.29)
          (Sub (Num 1) (Mul (Num 0.72) (Exp (Mul (Num (-0.05)) (Num 50))))));
     Cmd_mapcalc "rain_volume" (Mul (Num 50) (Div Blank (Num 60)))].
Proof. vm_compute. reflexivity. Qed.

Example rasters_left_without_duration :
  (map_to_list (left_behind (script plain_engine storm_without_duration dem_only))).*1
  = ["rain_energy"; "dem"].
Proof. vm_compute. reflexivity. Qed.

(** With [rain_duration=5] the run reaches its end, and the last command
    is the removal that [cleanup] sends. *)
Example rasters_left_with_duration :
  (map_to_list (left_behind (script plain_engine storm dem_only))).*1
  = ["k_factor"; "c_factor"; "erosion"; "flow_accumulation"; "r_factor";
     "ls_factor"; "dem"].
Proof. vm_compute. reflexivity. Qed.

Example last_command_with_duration :
  last (journal (script plain_engine storm dem_only)) = Some (Cmd_remove cleanup_names).
Proof. vm_compute. reflexivity. Qed.

Lemma script_exit_status (E : Engine) o ms :
  exit_status (script E o ms) = exit_status_of (result (main E o (World ms []))).
Proof. unfold script. destruct (run_exitfuncs E _ _). reflexivity. Qed.

(** After a run that a command's error stopped, the process ends with the
    mapset as the failed command left it. *)
Lemma script_after_error (E : Engine) o ms prog :
  result (main E o (World ms [])) = inr (CalledModuleError prog) ->
  left_behind (script E o ms) = mapset (after (main E o (World ms [])))
  /\ invoked_at_exit (script E o ms) = [].
Proof.
  intros Hres. unfold script.
  destruct (main_registers_last E o ms) as [[Hr _]|[p [_ Hf]]]; [congruence|].
  rewrite Hf. cbn [run_exitfuncs]. split; reflexivity.
Qed.

(** [r.erosion elevation=dem rain_intensity=50 rain_duration=5] on a
    mapset that has [dem] runs to [sys.exit(0)]. *)
Lemma storm_run_succeeds (E : Engine) :
  result (main E storm (World dem_only [])) = inr (SystemExit 0).
Proof.
  cut (post (main E storm) (World dem_only []) (fun r _ _ => r = inr (SystemExit 0))).
  { unfold post. tauto. }
  unfold main, alternative_inputs, r_factor_input, c_factor_input, k_factor_input,
    event_based_r_factor, run_model, rusle, dem_only.
  cbn [storm opt_rain_intensity opt_rain_duration opt_r_factor opt_c_factor opt_k_factor
       opt_model opt_elevation opt_erosion opt_flow_accumulation opt_ls_factor
       opt_m_coeff opt_n_coeff opt_r_factor_value opt_c_factor_value opt_k_factor_value
       subst_int py_not String.eqb Ascii.eqb Bool.eqb].
  repeat step. reflexivity.
Qed.

(** C3, at an input where the script does not keep it.
    [r.erosion elevation=dem rain_intensity=50], with no [rain_duration],
    stops at an error of the raster calculator: the process exits with
    status 1 and [cleanup] has not run; the same command line with
    [rain_duration=5] exits with status 0 and [cleanup] has run once. *)
Theorem cleanup_not_run_after_error :
  let failed := script plain_engine storm_without_duration dem_only in
  let succeeded := script plain_engine storm dem_only in
  exit_status failed = 1%Z
  /\ cleanup_invocations failed = 0%nat
  /\ exit_status succeeded = 0%Z
  /\ cleanup_invocations succeeded = 1%nat.
Proof.
  cbv zeta.
  pose proof (main_without_duration plain_engine storm_without_duration dem_only []
                50%Z eq_refl eq_refl) as H.
  unfold post in H. destruct H as (Hres & _).
  rewrite !script_exit_status, !cleanup_only_after_success.
  rewrite Hres, storm_run_succeeds. repeat split; reflexivity.
Qed.

(** C4, at an input where the script does not keep it.  When the
    second expression of [event_based_r_factor] fails, as it does when
    [rain_duration] is not given, the routine ends with [rain_energy] still
    in the mapset, and the process ends with it there too: [cleanup] was
    not registered.  The names [cleanup] removes do not include
    [erosivity]; those of r.erosion.rfactor.py do. *)
Theorem rain_energy_left_behind_after_error :
  let run := event_based_r_factor plain_engine (subst_int (Some 50%Z)) (subst_int None)
               (World dem_only []) in
  let process := script plain_engine storm_without_duration dem_only in
  result run = inr (CalledModuleError "r.mapcalc")
  /\ is_Some (mapset (after run) !! "rain_energy")
  /\ exit_status process = 1%Z
  /\ is_Some (left_behind process !! "rain_energy")
  /\ ("erosivity" ∉ cleanup_names)
  /\ ("erosivity" ∈ RFactor.cleanup_names).
Proof.
  cbv zeta.
  pose proof (main_without_duration plain_engine storm_without_duration dem_only []
                50%Z eq_refl eq_refl) as H.
  unfold post in H. destruct H as (Hres & _ & Hleft & _).
  split; [|split].
  - cut (post (event_based_r_factor plain_engine (subst_int (Some 50%Z)) (subst_int None))
           (World dem_only []) (fun r _ _ => r = inr (CalledModuleError "r.mapcalc"))).
    { unfold post. tauto. }
    unfold event_based_r_factor. cbn [subst_int]. repeat step. reflexivity.
  - cut (post (event_based_r_factor plain_engine (subst_int (Some 50%Z)) (subst_int None))
           (World dem_only []) (fun _ w _ => is_Some (mapset w !! "rain_energy"))).
    { unfold post. tauto. }
    unfold event_based_r_factor. cbn [subst_int]. repeat step.
    cbn [mapset]. lookups. eauto.
  - rewrite script_exit_status, Hres.
    destruct (script_after_error plain_engine storm_without_duration dem_only _ Hres)
      as [Hlb _].
    rewrite Hlb.
    split; [reflexivity|]. split; [exact Hleft|].
    split.
    + unfold cleanup_names. intros Hin.
      repeat (apply elem_of_cons in Hin as [Hin|Hin]; [discriminate|]).
      by apply elem_of_nil in Hin.
    + unfold RFactor.cleanup_names. rewrite !elem_of_cons. auto.
Qed.

(** * Further properties of the scripts

    ** Map lemmas *)

Lemma lookup_foldr_delete_notin (ms : gmap string raster) names n :
  n ∉ names -> foldr delete ms names !! n = ms !! n.
Proof.
  induction names as [|x names IH]; intros Hn; [reflexivity|].
  apply not_elem_of_cons in Hn as [Hx Hn]. cbn [foldr].
  rewrite lookup_delete_ne by congruence. apply IH, Hn.
Qed.

Lemma lookup_foldr_delete_in (ms : gmap string raster) names n :
  n ∈ names -> foldr delete ms names !! n = None.
Proof.
  induction names as [|x names IH]; intros Hn; [by apply elem_of_nil in Hn|].
  cbn [foldr]. destruct (decide (x = n)) as [->|Hx].
  - apply lookup_delete_eq.
  - rewrite lookup_delete_ne by exact Hx.
    apply elem_of_cons in Hn as [Hn|Hn]; [congruence | apply IH, Hn].
Qed.

Lemma foldr_delete_is_Some (ms : gmap string raster) names n :
  n ∉ names -> is_Some (ms !! n) -> is_Some (foldr delete ms names !! n).
Proof. intros Hn H. rewrite lookup_foldr_delete_notin by exact Hn. exact H. Qed.

Ltac member :=
  cbn [app]; solve [ repeat (apply elem_of_cons; first [left; reflexivity | right]) ].

(** ** What a run changes *)

Lemma touches_only_bind {A B} names (m : M A) (k : A -> M B) :
  touches_only names m -> (forall a, touches_only names (k a)) ->
  touches_only names (bind m k).
Proof.
  intros Hm Hk w n Hn. unfold bind.
  destruct (result (m w)) as [a|e]; cbn [after].
  - rewrite (Hk a _ n Hn). apply Hm, Hn.
  - apply Hm, Hn.
Qed.

Lemma touches_only_ret {A} names (a : A) : touches_only names (ret a).
Proof. intros w n _. reflexivity. Qed.

Lemma touches_only_mapcalc names out e :
  out ∈ names -> touches_only names (r_mapcalc out e).
Proof.
  intros Ho w n Hn. unfold r_mapcalc.
  destruct (eval (mapset w) e); cbn [after with_mapset mapset]; [|reflexivity].
  apply lookup_insert_ne. intros ->. contradiction.
Qed.

Lemma put_opt_other o r (ms : gmap string raster) (names : list string) n :
  match o with Some x => x ∈ names | None => True end ->
  n ∉ names -> put_opt o r ms !! n = ms !! n.
Proof.
  destruct o as [x|]; intros Ho Hn; [|reflexivity].
  cbn [put_opt]. apply lookup_insert_ne. intros ->. contradiction.
Qed.

Section Frame.

Variable E : Engine.

Lemma touches_only_slope_aspect (names : list string) elevation slope aspect dx dy :
  match slope with Some x => x ∈ names | None => True end ->
  match aspect with Some x => x ∈ names | None => True end ->
  match dx with Some x => x ∈ names | None => True end ->
  match dy with Some x => x ∈ names | None => True end ->
  touches_only names (r_slope_aspect E elevation slope aspect dx dy).
Proof.
  intros H1 H2 H3 H4 w n Hn. unfold r_slope_aspect.
  destruct (mapset w !! elevation); cbn [after with_mapset mapset]; [|reflexivity].
  rewrite (put_opt_other dy _ _ names), (put_opt_other dx _ _ names),
    (put_opt_other aspect _ _ names), (put_opt_other slope _ _ names) by assumption.
  reflexivity.
Qed.

Lemma touches_only_grow_distance names input val :
  val ∈ names -> touches_only names (r_grow_distance E input val).
Proof.
  intros Ho w n Hn. unfold r_grow_distance.
  destruct (mapset w !! input); cbn [after with_mapset mapset]; [|reflexivity].
  apply lookup_insert_ne. intros ->. contradiction.
Qed.

Lemma touches_only_watershed names elevation accumulation :
  accumulation ∈ names -> touches_only names (r_watershed E elevation accumulation).
Proof.
  intros Ho w n Hn. unfold r_watershed.
  destruct (mapset w !! elevation); cbn [after with_mapset mapset]; [|reflexivity].
  apply lookup_insert_ne. intros ->. contradiction.
Qed.

Lemma touches_only_region names : touches_only names (g_region_nsres E).
Proof. intros w n _. reflexivity. Qed.

Lemma touches_only_colors names map : touches_only names (r_colors map).
Proof. intros w n _. reflexivity. Qed.

Lemma touches_only_remove names removed :
  Forall (fun x => x ∈ names) removed -> touches_only names (g_remove E removed).
Proof.
  intros Hall w n Hn. unfold g_remove. cbn [after with_mapset mapset].
  apply lookup_foldr_delete_notin. intros Hin.
  rewrite Forall_forall in Hall. apply Hn, Hall, Hin.
Qed.

Lemma touches_only_try_pass names m :
  touches_only names m -> touches_only names (try_pass m).
Proof.
  intros Hm w n Hn. unfold try_pass.
  destruct (result (m w)) as [|[|]]; cbn [after]; apply Hm, Hn.
Qed.

Lemma touches_only_atexit_register names f : touches_only names (atexit_register f).
Proof. intros w n _. reflexivity. Qed.

Lemma touches_only_sys_exit names code : touches_only names (sys_exit code).
Proof. intros w n _. reflexivity. Qed.

Ltac frame :=
  repeat first
    [ apply touches_only_bind; [ | intros ? ]
    | apply touches_only_ret
    | apply touches_only_mapcalc; member
    | apply touches_only_slope_aspect; try exact I; member
    | apply touches_only_grow_distance; member
    | apply touches_only_watershed; member
    | apply touches_only_region
    | apply touches_only_colors
    | apply touches_only_atexit_register
    | apply touches_only_sys_exit
    | apply touches_only_try_pass
    | apply touches_only_remove; repeat (apply Forall_cons_2; [member|]); apply Forall_nil_2
    | match goal with |- touches_only _ (if ?b then _ else _) => destruct b end
    | match goal with |- touches_only _ (match ?x with Some _ => _ | None => _ end) =>
        destruct x end
    | match goal with |- touches_only _ (let '(_, _) := ?x in _) => destruct x as [[? ?] ?]
      end ].

Lemma touches_only_event_based_r_factor i d :
  touches_only ("r_factor" :: event_scratch) (event_based_r_factor E i d).
Proof. unfold event_based_r_factor, event_scratch. frame. Qed.

Lemma touches_only_rfactor_event_based_r_factor i d :
  touches_only ("r_factor" :: event_scratch) (RFactor.event_based_r_factor E i d).
Proof. unfold RFactor.event_based_r_factor, event_scratch. frame. Qed.

Lemma touches_only_rusle elevation erosion flow_accumulation r_factor c_factor k_factor
    ls_factor m n :
  touches_only ([erosion; flow_accumulation; ls_factor] ++ rusle_scratch)
    (rusle E elevation erosion flow_accumulation r_factor c_factor k_factor ls_factor m n).
Proof. unfold rusle, rusle_scratch. frame. Qed.

Lemma touches_only_usped elevation erosion flow_accumulation r_factor c_factor k_factor
    ls_factor m n :
  touches_only ([erosion; flow_accumulation; ls_factor] ++ usped_scratch)
    (usped E elevation erosion flow_accumulation r_factor c_factor k_factor ls_factor m n).
Proof. unfold usped, usped_scratch. frame. Qed.

Lemma touches_only_main o :
  touches_only ([opt_erosion o; opt_flow_accumulation o; opt_ls_factor o] ++ fixed_names)
    (main E o).
Proof.
  unfold main, alternative_inputs, r_factor_input, c_factor_input, k_factor_input,
    run_model, event_based_r_factor, rusle, usped,
    fixed_names, usped_scratch, event_scratch, factor_names.
  frame.
Qed.

Lemma touches_only_run_to_exit o r_factor c_factor k_factor :
  touches_only ([opt_erosion o; opt_flow_accumulation o; opt_ls_factor o] ++ usped_scratch)
    (run_model E o r_factor c_factor k_factor >> atexit_register fn_cleanup >> sys_exit 0).
Proof. unfold run_model, rusle, usped, usped_scratch. frame. Qed.

Lemma touches_only_cleanup_names : touches_only cleanup_names (cleanup E).
Proof. unfold cleanup. unfold cleanup_names at 2. frame. Qed.

Lemma touches_only_cleanup (names : list string) :
  touches_only (names ++ fixed_names) (cleanup E).
Proof.
  unfold cleanup, cleanup_names, fixed_names, usped_scratch, event_scratch, factor_names.
  apply touches_only_try_pass, touches_only_remove.
  repeat (apply Forall_cons_2;
          [rewrite elem_of_app; right; member|]).
  apply Forall_nil_2.
Qed.

Lemma run_exitfuncs_frame (names : list string) fs w n :
  n ∉ names ++ fixed_names ->
  mapset (run_exitfuncs E fs w).1 !! n = mapset w !! n.
Proof.
  revert w. induction fs as [|f fs IH]; intros w Hn; [reflexivity|].
  cbn [run_exitfuncs].
  destruct (run_exitfuncs E fs (after (run_exitfunc E f w))) as [w' cs] eqn:Hrun.
  cbn [fst]. change w' with (w', cs).1. rewrite <- Hrun. rewrite IH by exact Hn.
  destruct f. cbn [run_exitfunc]. apply (touches_only_cleanup names), Hn.
Qed.

End Frame.

(** ** What a run deletes *)

Lemma deletes_only_bind {A B} names (m : M A) (k : A -> M B) :
  deletes_only names m -> (forall a, deletes_only names (k a)) ->
  deletes_only names (bind m k).
Proof.
  intros Hm Hk w n Hn Hs. unfold bind.
  destruct (result (m w)) as [a|e]; cbn [after].
  - apply Hk; [exact Hn|]. apply Hm; assumption.
  - apply Hm; assumption.
Qed.

Lemma deletes_only_ret {A} names (a : A) : deletes_only names (ret a).
Proof. intros w n _ H. exact H. Qed.

Lemma put_opt_is_Some o r (ms : gmap string raster) n :
  is_Some (ms !! n) -> is_Some (put_opt o r ms !! n).
Proof.
  destruct o as [x|]; intros H; [|exact H].
  cbn [put_opt]. apply lookup_insert_is_Some'. right. exact H.
Qed.

Section Deletions.

Variable E : Engine.

Lemma deletes_only_mapcalc names out e : deletes_only names (r_mapcalc out e).
Proof.
  intros w n _ H. unfold r_mapcalc.
  destruct (eval (mapset w) e); cbn [after with_mapset mapset]; [|exact H].
  apply lookup_insert_is_Some'. right. exact H.
Qed.

Lemma deletes_only_slope_aspect names elevation slope aspect dx dy :
  deletes_only names (r_slope_aspect E elevation slope aspect dx dy).
Proof.
  intros w n _ H. unfold r_slope_aspect.
  destruct (mapset w !! elevation); cbn [after with_mapset mapset]; [|exact H].
  repeat apply put_opt_is_Some. exact H.
Qed.

Lemma deletes_only_grow_distance names input val :
  deletes_only names (r_grow_distance E input val).
Proof.
  intros w n _ H. unfold r_grow_distance.
  destruct (mapset w !! input); cbn [after with_mapset mapset]; [|exact H].
  apply lookup_insert_is_Some'. right. exact H.
Qed.

Lemma deletes_only_watershed names elevation accumulation :
  deletes_only names (r_watershed E elevation accumulation).
Proof.
  intros w n _ H. unfold r_watershed.
  destruct (mapset w !! elevation); cbn [after with_mapset mapset]; [|exact H].
  apply lookup_insert_is_Some'. right. exact H.
Qed.

Lemma deletes_only_region names : deletes_only names (g_region_nsres E).
Proof. intros w n _ H. exact H. Qed.

Lemma deletes_only_colors names map : deletes_only names (r_colors map).
Proof. intros w n _ H. exact H. Qed.

Lemma deletes_only_remove (names removed : list string) :
  Forall (fun x => x ∈ names) removed -> deletes_only names (g_remove E removed).
Proof.
  intros Hall w n Hn H. unfold g_remove. cbn [after with_mapset mapset].
  apply foldr_delete_is_Some; [|exact H]. intros Hin.
  rewrite Forall_forall in Hall. apply Hn, Hall, Hin.
Qed.

Lemma deletes_only_try_pass names m :
  deletes_only names m -> deletes_only names (try_pass m).
Proof.
  intros Hm w n Hn H. unfold try_pass.
  destruct (result (m w)) as [|[|]]; cbn [after]; apply Hm; assumption.
Qed.

Lemma deletes_only_atexit_register names f : deletes_only names (atexit_register f).
Proof. intros w n _ H. exact H. Qed.

Lemma deletes_only_sys_exit names code : deletes_only names (sys_exit code).
Proof. intros w n _ H. exact H. Qed.

Ltac deletions :=
  repeat first
    [ apply deletes_only_bind; [ | intros ? ]
    | apply deletes_only_ret
    | apply deletes_only_mapcalc
    | apply deletes_only_slope_aspect
    | apply deletes_only_grow_distance
    | apply deletes_only_watershed
    | apply deletes_only_region
    | apply deletes_only_colors
    | apply deletes_only_atexit_register
    | apply deletes_only_sys_exit
    | apply deletes_only_try_pass
    | apply deletes_only_remove; repeat (apply Forall_cons_2; [member|]); apply Forall_nil_2
    | match goal with |- deletes_only _ (if ?b then _ else _) => destruct b end
    | match goal with |- deletes_only _ (match ?x with Some _ => _ | None => _ end) =>
        destruct x end
    | match goal with |- deletes_only _ (let '(_, _) := ?x in _) => destruct x as [[? ?] ?]
      end ].

Lemma deletes_only_main o : deletes_only ("erosivity" :: cleanup_names) (main E o).
Proof.
  unfold main, alternative_inputs, r_factor_input, c_factor_input, k_factor_input,
    run_model, event_based_r_factor, rusle, usped, cleanup_names.
  deletions.
Qed.

Lemma deletes_only_cleanup : deletes_only ("erosivity" :: cleanup_names) (cleanup E).
Proof. unfold cleanup. unfold cleanup_names at 2. deletions. Qed.

Lemma run_exitfuncs_deletes fs w n :
  n ∉ "erosivity" :: cleanup_names ->
  is_Some (mapset w !! n) ->
  is_Some (mapset (run_exitfuncs E fs w).1 !! n).
Proof.
  revert w. induction fs as [|f fs IH]; intros w Hn H; [exact H|].
  cbn [run_exitfuncs].
  destruct (run_exitfuncs E fs (after (run_exitfunc E f w))) as [w' cs] eqn:Hrun.
  cbn [fst]. change w' with (w', cs).1. rewrite <- Hrun. apply IH; [exact Hn|].
  destruct f. cbn [run_exitfunc]. apply deletes_only_cleanup; assumption.
Qed.

End Deletions.

(** ** The rasters a run leaves alone *)

Lemma left_behind_script (E : Engine) o ms :
  left_behind (script E o ms)
  = mapset (run_exitfuncs E (exitfuncs (after (main E o (World ms []))))
              (after (main E o (World ms [])))).1.
Proof. unfold script. destruct (run_exitfuncs E _ _). reflexivity. Qed.

Ltac not_member :=
  let H := fresh in
  cbn [app]; intros H;
  repeat (apply elem_of_cons in H as [H|H]; [discriminate H|]);
  by apply elem_of_nil in H.

(** X1. Each routine changes only the rasters it names: [rusle] and [usped]
    their three outputs and their scratch rasters, [event_based_r_factor]
    [r_factor] and its three scratch rasters.  Every other raster of the
    mapset is afterwards as it was, whether the routine returned or
    failed. *)
Theorem routines_change_only_their_rasters (E : Engine)
    (elevation erosion flow_accumulation r_factor c_factor k_factor ls_factor : string)
    (m n : Q) (i d : expr) :
  touches_only ([erosion; flow_accumulation; ls_factor] ++ rusle_scratch)
    (rusle E elevation erosion flow_accumulation r_factor c_factor k_factor ls_factor m n)
  /\ touches_only ([erosion; flow_accumulation; ls_factor] ++ usped_scratch)
       (usped E elevation erosion flow_accumulation r_factor c_factor k_factor
          ls_factor m n)
  /\ touches_only ("r_factor" :: event_scratch) (event_based_r_factor E i d)
  /\ touches_only ("r_factor" :: event_scratch) (RFactor.event_based_r_factor E i d).
Proof.
  split; [apply touches_only_rusle|]. split; [apply touches_only_usped|].
  split; [apply touches_only_event_based_r_factor|].
  apply touches_only_rfactor_event_based_r_factor.
Qed.

(** X2. Whatever the options and however the run ends, the process changes
    no raster other than its three outputs and the nineteen fixed names
    (the scratch rasters and [r_factor], [c_factor], [k_factor]): a raster
    of any other name is at the end what it was at the start. *)
Theorem process_changes_only_outputs_and_fixed_names (E : Engine) o ms n :
  n ∉ [opt_erosion o; opt_flow_accumulation o; opt_ls_factor o] ++ fixed_names ->
  left_behind (script E o ms) !! n = ms !! n.
Proof.
  intros Hn. rewrite left_behind_script.
  rewrite (run_exitfuncs_frame E [opt_erosion o; opt_flow_accumulation o; opt_ls_factor o])
    by exact Hn.
  apply (touches_only_main E o (World ms []) n Hn).
Qed.

Lemma process_changes_only_outputs_and_fixed_names_witness :
  ("dem" ∉ [opt_erosion storm; opt_flow_accumulation storm; opt_ls_factor storm]
           ++ fixed_names)
  /\ left_behind (script plain_engine storm dem_only) !! "dem" = dem_only !! "dem".
Proof.
  assert (H : "dem" ∉ [opt_erosion storm; opt_flow_accumulation storm; opt_ls_factor storm]
                      ++ fixed_names).
  { unfold fixed_names, usped_scratch, event_scratch, factor_names, storm.
    cbn [opt_erosion opt_flow_accumulation opt_ls_factor]. not_member. }
  split; [exact H|].
  exact (process_changes_only_outputs_and_fixed_names plain_engine storm dem_only "dem" H).
Defined.

(** X3. The process deletes no raster other than the sixteen scratch names
    ([erosivity] and the names [cleanup] lists): a raster of any other name
    that is in the mapset at the start is in it at the end, whatever the
    options and however the run ends.  So the constants [r_factor],
    [c_factor] and [k_factor] that [main] writes are never removed. *)
Theorem process_deletes_only_scratch (E : Engine) o ms n :
  n ∉ "erosivity" :: cleanup_names ->
  is_Some (ms !! n) ->
  is_Some (left_behind (script E o ms) !! n).
Proof.
  intros Hn H. rewrite left_behind_script.
  apply run_exitfuncs_deletes; [exact Hn|].
  apply (deletes_only_main E o (World ms []) n Hn H).
Qed.

Lemma process_deletes_only_scratch_witness :
  ("dem" ∉ "erosivity" :: cleanup_names)
  /\ is_Some (dem_only !! "dem")
  /\ is_Some (left_behind (script plain_engine storm_without_duration dem_only) !! "dem").
Proof.
  assert (H : "dem" ∉ "erosivity" :: cleanup_names) by (unfold cleanup_names; not_member).
  assert (H' : is_Some (dem_only !! "dem")).
  { exists (constant 100). apply lookup_singleton_eq. }
  split; [exact H|]. split; [exact H'|].
  exact (process_deletes_only_scratch plain_engine storm_without_duration dem_only "dem"
           H H').
Defined.

(** ** What a normal return leaves *)

Lemma ends_without_bind {A B} names (m : M A) (k : A -> M B) :
  (forall a, ends_without names (k a)) -> ends_without names (bind m k).
Proof.
  intros Hk w b. unfold bind.
  destruct (result (m w)) as [a|e]; cbn [result after]; [apply Hk | discriminate].
Qed.

Lemma ends_without_then_ret {A B} names (m : M A) (b : B) :
  ends_without names m -> ends_without names (bind m (fun _ => ret b)).
Proof.
  intros Hm w b'. unfold bind.
  destruct (result (m w)) as [a|e] eqn:Hres; cbn [result after ret]; [|discriminate].
  intros _. apply (Hm w a Hres).
Qed.

Lemma ends_without_remove (E : Engine) names : ends_without names (g_remove E names).
Proof.
  intros w a _. unfold g_remove. cbn [after with_mapset mapset].
  apply Forall_forall. intros n Hn. apply lookup_foldr_delete_in, Hn.
Qed.

(** X4. When [rusle], [usped] or [event_based_r_factor] returns normally,
    none of its scratch rasters is in the mapset, whatever the names of
    the inputs and outputs: an output (or an input) that carries the name
    of a scratch raster is removed with them. *)
Theorem routines_release_scratch_on_return (E : Engine)
    (elevation erosion flow_accumulation r_factor c_factor k_factor ls_factor : string)
    (m n : Q) (i d : expr) ms fs :
  (result (rusle E elevation erosion flow_accumulation r_factor c_factor k_factor
             ls_factor m n (World ms fs)) = inl tt ->
   Forall (fun s =>
             mapset (after (rusle E elevation erosion flow_accumulation r_factor
                              c_factor k_factor ls_factor m n (World ms fs))) !! s = None)
     rusle_scratch)
  /\ (result (usped E elevation erosion flow_accumulation r_factor c_factor k_factor
                ls_factor m n (World ms fs)) = inl tt ->
      Forall (fun s =>
                mapset (after (usped E elevation erosion flow_accumulation r_factor
                                 c_factor k_factor ls_factor m n (World ms fs))) !! s
                = None)
        usped_scratch)
  /\ (forall name,
        result (event_based_r_factor E i d (World ms fs)) = inl name ->
        Forall (fun s =>
                  mapset (after (event_based_r_factor E i d (World ms fs))) !! s = None)
          event_scratch)
  /\ (forall name,
        result (RFactor.event_based_r_factor E i d (World ms fs)) = inl name ->
        Forall (fun s =>
                  mapset (after (RFactor.event_based_r_factor E i d (World ms fs))) !! s
                  = None)
          event_scratch).
Proof.
  split; [|split; [|split]].
  - assert (H : ends_without rusle_scratch
                  (rusle E elevation erosion flow_accumulation r_factor c_factor k_factor
                     ls_factor m n)).
    { unfold rusle. repeat (apply ends_without_bind; intros ?).
      apply ends_without_remove. }
    apply H.
  - assert (H : ends_without usped_scratch
                  (usped E elevation erosion flow_accumulation r_factor c_factor k_factor
                     ls_factor m n)).
    { unfold usped. repeat (apply ends_without_bind; intros ?).
      apply ends_without_remove. }
    apply H.
  - assert (H : ends_without event_scratch (event_based_r_factor E i d)).
    { unfold event_based_r_factor. do 5 (apply ends_without_bind; intros ?).
      apply ends_without_then_ret, ends_without_remove. }
    apply H.
  - assert (H : ends_without event_scratch (RFactor.event_based_r_factor E i d)).
    { unfold RFactor.event_based_r_factor. do 4 (apply ends_without_bind; intros ?).
      apply ends_without_then_ret, ends_without_remove. }
    apply H.
Qed.

(** A RUSLE run whose [flow_accumulation] output is named [flowacc]. *)
Lemma routines_release_scratch_on_return_witness :
  result (rusle plain_engine "dem" "erosion" "flowacc" "rain" "cover" "soil" "ls_factor"
            1.5 1.2 (World four_rasters [])) = inl tt
  /\ Forall (fun s =>
               mapset (after (rusle plain_engine "dem" "erosion" "flowacc" "rain" "cover"
                                "soil" "ls_factor" 1.5 1.2 (World four_rasters []))) !! s
               = None)
       rusle_scratch.
Proof.
  assert (H : result (rusle plain_engine "dem" "erosion" "flowacc" "rain" "cover" "soil"
                        "ls_factor" 1.5 1.2 (World four_rasters [])) = inl tt)
    by (vm_compute; reflexivity).
  split; [exact H|].
  destruct (routines_release_scratch_on_return plain_engine "dem" "erosion" "flowacc"
              "rain" "cover" "soil" "ls_factor" 1.5 1.2 Blank Blank four_rasters [])
    as [Hrusle _].
  exact (Hrusle H).
Defined.

(** ** [cleanup] *)

Lemma cleanup_removes_its_names (E : Engine) (w : world) :
  Forall (fun n => mapset (after (cleanup E w)) !! n = None) cleanup_names.
Proof.
  unfold cleanup, try_pass, g_remove.
  destruct (remove_strict E && negb (forallb (has (mapset w)) cleanup_names));
    cbn [result after with_mapset mapset];
    apply Forall_forall; intros n Hn; apply lookup_foldr_delete_in, Hn.
Qed.

(** X5. [cleanup] (of r.erosion.py and of r.erosion.rfactor.py) never
    raises, whether the rasters it names exist or not and whether the
    removal command reports their absence or not; afterwards none of the
    names it lists is in the mapset, every other raster is as it was, and
    the registry of exit functions is as it was. *)
Theorem cleanup_removes_its_names_and_returns (E : Engine) (w : world) :
  (result (cleanup E w) = inl tt
   /\ Forall (fun n => mapset (after (cleanup E w)) !! n = None) cleanup_names
   /\ (forall n, n ∉ cleanup_names -> mapset (after (cleanup E w)) !! n = mapset w !! n)
   /\ exitfuncs (after (cleanup E w)) = exitfuncs w)
  /\ (result (RFactor.cleanup E w) = inl tt
      /\ Forall (fun n => mapset (after (RFactor.cleanup E w)) !! n = None)
           RFactor.cleanup_names
      /\ (forall n, n ∉ RFactor.cleanup_names ->
            mapset (after (RFactor.cleanup E w)) !! n = mapset w !! n)
      /\ exitfuncs (after (RFactor.cleanup E w)) = exitfuncs w).
Proof.
  split.
  - unfold cleanup, try_pass, g_remove.
    destruct (remove_strict E && negb (forallb (has (mapset w)) cleanup_names));
      cbn [result after with_mapset mapset exitfuncs].
    all: split; [reflexivity|]; split;
      [ apply Forall_forall; intros n Hn; apply lookup_foldr_delete_in, Hn
      | split; [intros n Hn; apply lookup_foldr_delete_notin, Hn | reflexivity] ].
  - unfold RFactor.cleanup, try_pass, g_remove.
    destruct (remove_strict E && negb (forallb (has (mapset w)) RFactor.cleanup_names));
      cbn [result after with_mapset mapset exitfuncs].
    all: split; [reflexivity|]; split;
      [ apply Forall_forall; intros n Hn; apply lookup_foldr_delete_in, Hn
      | split; [intros n Hn; apply lookup_foldr_delete_notin, Hn | reflexivity] ].
Qed.

(** ** The end of the process *)

(** X6. A process either reaches [sys.exit(0)], and then it exits with
    status 0, [cleanup] has run exactly once and none of the fifteen names
    [cleanup] lists is in the mapset (also those the run did not create);
    or a command has failed, and then it exits with status 1 and [cleanup]
    has not run.  Nothing else happens. *)
Theorem process_ends_in_one_of_two_ways (E : Engine) o ms :
  let p := script E o ms in
  (result (main E o (World ms [])) = inr (SystemExit 0)
   /\ exit_status p = 0%Z
   /\ cleanup_invocations p = 1%nat
   /\ Forall (fun n => left_behind p !! n = None) cleanup_names)
  \/ ((exists prog, result (main E o (World ms [])) = inr (CalledModuleError prog))
      /\ exit_status p = 1%Z
      /\ cleanup_invocations p = 0%nat
      /\ left_behind p = mapset (after (main E o (World ms [])))).
Proof.
  cbv zeta.
  destruct (main_registers_last E o ms) as [[Hr Hf]|[prog [Hr Hf]]].
  - left. split; [exact Hr|].
    rewrite script_exit_status, cleanup_only_after_success, Hr.
    split; [reflexivity|]. split; [reflexivity|].
    rewrite left_behind_script, Hf. cbn [run_exitfuncs run_exitfunc fst].
    apply (cleanup_removes_its_names E).
  - right. split; [eauto|].
    rewrite script_exit_status, cleanup_only_after_success, Hr.
    split; [reflexivity|]. split; [reflexivity|].
    apply (script_after_error E o ms prog Hr).
Qed.

(** ** Runs that only need their inputs to exist *)

Lemma eval_is_Some (ms : gmap string raster) e :
  no_blank e = true ->
  Forall (fun n => is_Some (ms !! n)) (names_of e) ->
  is_Some (eval ms e).
Proof.
  induction e as [q|n| |a IHa b IHb|a IHa b IHb|a IHa b IHb|a IHa b IHb|a IHa b IHb
                 |a IHa|a IHa|a IHa];
    cbn [no_blank names_of eval]; intros Hb Hn.
  - eauto.
  - apply Forall_cons in Hn as [Hn _]. exact Hn.
  - discriminate.
  - apply andb_true_iff in Hb as [Ha Hb]. apply Forall_app in Hn as [Hna Hnb].
    destruct (IHa Ha Hna) as [x ->], (IHb Hb Hnb) as [y ->]. cbn. eauto.
  - apply andb_true_iff in Hb as [Ha Hb]. apply Forall_app in Hn as [Hna Hnb].
    destruct (IHa Ha Hna) as [x ->], (IHb Hb Hnb) as [y ->]. cbn. eauto.
  - apply andb_true_iff in Hb as [Ha Hb]. apply Forall_app in Hn as [Hna Hnb].
    destruct (IHa Ha Hna) as [x ->], (IHb Hb Hnb) as [y ->]. cbn. eauto.
  - apply andb_true_iff in Hb as [Ha Hb]. apply Forall_app in Hn as [Hna Hnb].
    destruct (IHa Ha Hna) as [x ->], (IHb Hb Hnb) as [y ->]. cbn. eauto.
  - apply andb_true_iff in Hb as [Ha Hb]. apply Forall_app in Hn as [Hna Hnb].
    destruct (IHa Ha Hna) as [x ->], (IHb Hb Hnb) as [y ->]. cbn. eauto.
  - destruct (IHa Hb Hn) as [x ->]. cbn. eauto.
  - destruct (IHa Hb Hn) as [x ->]. cbn. eauto.
  - destruct (IHa Hb Hn) as [x ->]. cbn. eauto.
Qed.

Section Returns.

Variable E : Engine.

Lemma post_mapcalc_some out e ms fs Q :
  no_blank e = true ->
  Forall (fun n => is_Some (ms !! n)) (names_of e) ->
  (forall g, Q (inl tt) (World (<[out := g]> ms) fs) [Cmd_mapcalc out e]) ->
  post (r_mapcalc out e) (World ms fs) Q.
Proof.
  intros Hb Hn HQ. destruct (eval_is_Some ms e Hb Hn) as [r Hr].
  unfold post, r_mapcalc. cbn [mapset]. rewrite Hr. apply HQ.
Qed.

Lemma post_slope_aspect_some elevation slope aspect dx dy ms fs Q :
  is_Some (ms !! elevation) ->
  (forall z,
     Q (inl tt)
       (World (put_opt dy (dy_of E z) (put_opt dx (dx_of E z)
                 (put_opt aspect (aspect_of E z) (put_opt slope (slope_of E z) ms)))) fs)
       [Cmd_slope_aspect elevation slope aspect dx dy]) ->
  post (r_slope_aspect E elevation slope aspect dx dy) (World ms fs) Q.
Proof.
  intros [z Hz] HQ. unfold post, r_slope_aspect. cbn [mapset]. rewrite Hz. apply HQ.
Qed.

Lemma post_grow_distance_some input val ms fs Q :
  is_Some (ms !! input) ->
  (forall g, Q (inl tt) (World (<[val := g]> ms) fs) [Cmd_grow_distance input val]) ->
  post (r_grow_distance E input val) (World ms fs) Q.
Proof.
  intros [g Hg] HQ. unfold post, r_grow_distance. cbn [mapset]. rewrite Hg. apply HQ.
Qed.

Lemma post_watershed_some elevation accumulation ms fs Q :
  is_Some (ms !! elevation) ->
  (forall g, Q (inl tt) (World (<[accumulation := g]> ms) fs)
               [Cmd_watershed elevation accumulation]) ->
  post (r_watershed E elevation accumulation) (World ms fs) Q.
Proof.
  intros [z Hz] HQ. unfold post, r_watershed. cbn [mapset]. rewrite Hz. apply HQ.
Qed.

End Returns.

(** A raster is in a mapset built by insertions and removals when it was
    inserted, or was there before and is not one of those removed. *)
Ltac kept :=
  repeat first
    [ apply lookup_insert_is_Some'; first [left; reflexivity | right]
    | apply lookup_delete_is_Some; split; [ne|] ];
  assumption.

Ltac all_kept :=
  cbn [names_of app]; repeat (apply Forall_cons_2; [kept|]); apply Forall_nil_2.

Ltac advance :=
  lazymatch goal with
  | |- post (bind _ _) _ _ => apply post_bind
  | |- post (r_mapcalc _ _) _ _ =>
      apply post_mapcalc_some; [ reflexivity | all_kept | intros ? ]
  | |- post (r_slope_aspect _ _ _ _ _ _) _ _ =>
      apply post_slope_aspect_some; [ kept | intros ?; cbn [put_opt] ]
  | |- post (r_grow_distance _ _ _) _ _ =>
      apply post_grow_distance_some; [ kept | intros ? ]
  | |- post (r_watershed _ _ _) _ _ =>
      apply post_watershed_some; [ kept | intros ? ]
  | |- post (g_region_nsres _) _ _ => apply post_region
  | |- post (r_colors _) _ _ => apply post_colors
  | |- post (g_remove _ _) _ _ => apply post_remove_ok; [ all_kept | cbn [foldr] ]
  | |- post (ret _) _ _ => apply post_ret
  end;
  cbn beta iota.

Section Returning.

Variable E : Engine.

Lemma rusle_returns elevation erosion flow_accumulation r_factor c_factor k_factor
    ls_factor m n ms fs :
  is_Some (ms !! elevation) ->
  is_Some (ms !! r_factor) -> is_Some (ms !! k_factor) -> is_Some (ms !! c_factor) ->
  result (rusle E elevation erosion flow_accumulation r_factor c_factor k_factor
            ls_factor m n (World ms fs)) = inl tt.
Proof.
  intros Hz Hr Hk Hc.
  cut (post (rusle E elevation erosion flow_accumulation r_factor c_factor k_factor
               ls_factor m n) (World ms fs) (fun r _ _ => r = inl tt)).
  { unfold post. tauto. }
  unfold rusle. repeat advance. reflexivity.
Qed.

Lemma usped_returns elevation erosion flow_accumulation r_factor c_factor k_factor
    ls_factor m n ms fs :
  is_Some (ms !! elevation) ->
  is_Some (ms !! r_factor) -> is_Some (ms !! k_factor) -> is_Some (ms !! c_factor) ->
  result (usped E elevation erosion flow_accumulation r_factor c_factor k_factor
            ls_factor m n (World ms fs)) = inl tt.
Proof.
  intros Hz Hr Hk Hc.
  cut (post (usped E elevation erosion flow_accumulation r_factor c_factor k_factor
               ls_factor m n) (World ms fs) (fun r _ _ => r = inl tt)).
  { unfold post. tauto. }
  unfold usped. repeat advance. reflexivity.
Qed.

End Returning.

(** X7. Both models return normally whenever the elevation raster and the
    three factor rasters exist, whatever names the inputs and outputs
    carry: every command of the sequence finds the rasters it reads, and
    the final removal finds every scratch raster. *)
Theorem models_return_when_inputs_exist (E : Engine)
    (elevation erosion flow_accumulation r_factor c_factor k_factor ls_factor : string)
    (m n : Q) ms fs :
  is_Some (ms !! elevation) ->
  is_Some (ms !! r_factor) -> is_Some (ms !! k_factor) -> is_Some (ms !! c_factor) ->
  result (rusle E elevation erosion flow_accumulation r_factor c_factor k_factor
            ls_factor m n (World ms fs)) = inl tt
  /\ result (usped E elevation erosion flow_accumulation r_factor c_factor k_factor
               ls_factor m n (World ms fs)) = inl tt.
Proof.
  intros Hz Hr Hk Hc. split.
  - apply rusle_returns; assumption.
  - apply usped_returns; assumption.
Qed.

Lemma models_return_when_inputs_exist_witness :
  result (rusle plain_engine "dem" "slope" "slope" "dem" "dem" "dem" "flowacc"
            1.5%Q 1.2%Q (World dem_only [])) = inl tt
  /\ result (usped plain_engine "dem" "slope" "slope" "dem" "dem" "dem" "flowacc"
               1.5%Q 1.2%Q (World dem_only [])) = inl tt.
Proof.
  apply (models_return_when_inputs_exist plain_engine
           "dem" "slope" "slope" "dem" "dem" "dem" "flowacc" 1.5%Q 1.2%Q dem_only []);
    unfold dem_only; rewrite lookup_singleton_eq; eauto.
Defined.

Lemma slope_aspect_without_elevation (E : Engine) elevation slope aspect dx dy w :
  mapset w !! elevation = None ->
  r_slope_aspect E elevation slope aspect dx dy w
  = Outcome (inr (CalledModuleError "r.slope.aspect")) w
      [Cmd_slope_aspect elevation slope aspect dx dy].
Proof. intros Hz. unfold r_slope_aspect. rewrite Hz. reflexivity. Qed.

(** X8. Without the elevation raster a model stops at its first command,
    [r.slope.aspect]: the error is that command's, the journal holds that
    one command, and the mapset is as it was. *)
Theorem models_stop_at_first_command_without_elevation (E : Engine)
    (elevation erosion flow_accumulation r_factor c_factor k_factor ls_factor : string)
    (m n : Q) w :
  mapset w !! elevation = None ->
  rusle E elevation erosion flow_accumulation r_factor c_factor k_factor ls_factor m n w
  = Outcome (inr (CalledModuleError "r.slope.aspect")) w
      [Cmd_slope_aspect elevation (Some "slope") None None None]
  /\ usped E elevation erosion flow_accumulation r_factor c_factor k_factor ls_factor m n w
     = Outcome (inr (CalledModuleError "r.slope.aspect")) w
         [Cmd_slope_aspect elevation (Some "slope") (Some "aspect") None None].
Proof.
  intros Hz. unfold rusle, usped.
  split.
  - unfold bind at 1. rewrite (slope_aspect_without_elevation _ _ _ _ _ _ _ Hz). reflexivity.
  - unfold bind at 1. rewrite (slope_aspect_without_elevation _ _ _ _ _ _ _ Hz). reflexivity.
Qed.

Lemma models_stop_at_first_command_without_elevation_witness :
  rusle plain_engine "dem" "erosion" "flow_accumulation" "r_factor" "c_factor" "k_factor"
    "ls_factor" 1.5%Q 1.2%Q (World ∅ [])
  = Outcome (inr (CalledModuleError "r.slope.aspect")) (World ∅ [])
      [Cmd_slope_aspect "dem" (Some "slope") None None None]
  /\ usped plain_engine "dem" "erosion" "flow_accumulation" "r_factor" "c_factor"
       "k_factor" "ls_factor" 1.5%Q 1.2%Q (World ∅ [])
     = Outcome (inr (CalledModuleError "r.slope.aspect")) (World ∅ [])
         [Cmd_slope_aspect "dem" (Some "slope") (Some "aspect") None None].
Proof.
  apply (models_stop_at_first_command_without_elevation plain_engine
           "dem" "erosion" "flow_accumulation" "r_factor" "c_factor" "k_factor"
           "ls_factor" 1.5%Q 1.2%Q (World ∅ [])).
  reflexivity.
Defined.

(** ** A model without one of its factor rasters *)

Ltac absent :=
  cbn [eval];
  repeat (lookups;
          try match goal with
              | H : ?m !! ?k = None |- context [?m !! ?k] => rewrite H
              end;
          cbn [mbind option_bind]);
  reflexivity.

Ltac three_factors Hmiss r_factor k_factor c_factor ms :=
  let gr := fresh "gr" in let gk := fresh "gk" in let gc := fresh "gc" in
  let Hr := fresh "Hr" in let Hk := fresh "Hk" in let Hc := fresh "Hc" in
  destruct (ms !! r_factor) as [gr|] eqn:Hr;
  destruct (ms !! k_factor) as [gk|] eqn:Hk;
  destruct (ms !! c_factor) as [gc|] eqn:Hc;
  try (exfalso; destruct Hmiss as [Hmiss|[Hmiss|Hmiss]]; discriminate Hmiss);
  clear Hmiss.

(** X9. When the elevation raster exists and one of the three factor
    rasters does not, [rusle] stops at the expression of the sediment flow
    with the error of the raster calculator.  By then it has written the
    [flow_accumulation] and [ls_factor] outputs; the [erosion] output is
    as it was before the run, and the scratch rasters [slope],
    [grow_slope] and [flowacc] are left in the mapset, the removal at the
    end of the routine not being reached. *)
Theorem rusle_stops_at_sediment_flow_without_factor (E : Engine)
    elevation erosion flow_accumulation r_factor c_factor k_factor ls_factor m n ms fs :
  well_named rusle_scratch [erosion; flow_accumulation; ls_factor]
    [elevation; r_factor; c_factor; k_factor] = true ->
  is_Some (ms !! elevation) ->
  ms !! r_factor = None \/ ms !! k_factor = None \/ ms !! c_factor = None ->
  post (rusle E elevation erosion flow_accumulation r_factor c_factor k_factor
          ls_factor m n) (World ms fs)
    (fun r w cs =>
       r = inr (CalledModuleError "r.mapcalc")
       /\ last cs = Some (Cmd_mapcalc "sedflow"
                            (Mul (Mul (Mul (Map r_factor) (Map k_factor)) (Map ls_factor))
                                 (Map c_factor)))
       /\ is_Some (mapset w !! flow_accumulation)
       /\ is_Some (mapset w !! ls_factor)
       /\ mapset w !! erosion = ms !! erosion
       /\ Forall (fun s => is_Some (mapset w !! s)) ["slope"; "grow_slope"; "flowacc"]
       /\ exitfuncs w = fs).
Proof.
  intros Hn [z Hz] Hmiss. split_names Hn.
  unfold rusle. repeat step.
  three_factors Hmiss r_factor k_factor c_factor ms.
  all: eapply post_mapcalc_err; [absent|].
  all: cbn [mapset exitfuncs]; repeat split; try reflexivity.
  all: try (lookups; eauto; reflexivity).
  all: present.
Qed.

Lemma rusle_stops_at_sediment_flow_without_factor_witness :
  well_named rusle_scratch ["erosion"; "flow_accumulation"; "ls_factor"]
    ["dem"; "rain"; "cover"; "soil"] = true
  /\ is_Some (dem_only !! "dem")
  /\ post (rusle plain_engine "dem" "erosion" "flow_accumulation" "rain" "cover" "soil"
             "ls_factor" 1.5%Q 1.2%Q) (World dem_only [])
       (fun r w cs =>
          r = inr (CalledModuleError "r.mapcalc")
          /\ last cs = Some (Cmd_mapcalc "sedflow"
                               (Mul (Mul (Mul (Map "rain") (Map "soil")) (Map "ls_factor"))
                                    (Map "cover")))
          /\ is_Some (mapset w !! "flow_accumulation")
          /\ is_Some (mapset w !! "ls_factor")
          /\ mapset w !! "erosion" = dem_only !! "erosion"
          /\ Forall (fun s => is_Some (mapset w !! s)) ["slope"; "grow_slope"; "flowacc"]
          /\ exitfuncs w = []).
Proof.
  assert (Hn : well_named rusle_scratch ["erosion"; "flow_accumulation"; "ls_factor"]
                 ["dem"; "rain"; "cover"; "soil"] = true) by (vm_compute; reflexivity).
  assert (Hz : is_Some (dem_only !! "dem")).
  { unfold dem_only. rewrite lookup_singleton_eq. eauto. }
  split; [exact Hn|]. split; [exact Hz|].
  apply (rusle_stops_at_sediment_flow_without_factor plain_engine
           "dem" "erosion" "flow_accumulation" "rain" "cover" "soil" "ls_factor"
           1.5%Q 1.2%Q dem_only [] Hn Hz).
  left. unfold dem_only. apply lookup_singleton_ne. discriminate.
Defined.

(** X10. When the elevation raster exists and one of the three factor
    rasters does not, [usped] stops at the expression of the sediment flow
    with the error of the raster calculator.  By then it has written the
    [flow_accumulation] and [ls_factor] outputs; the [erosion] output is
    as it was before the run, and the scratch rasters [slope], [aspect],
    [grow_slope], [grow_aspect] and [flowacc] are left in the mapset. *)
Theorem usped_stops_at_sediment_flow_without_factor (E : Engine)
    elevation erosion flow_accumulation r_factor c_factor k_factor ls_factor m n ms fs :
  well_named usped_scratch [erosion; flow_accumulation; ls_factor]
    [elevation; r_factor; c_factor; k_factor] = true ->
  is_Some (ms !! elevation) ->
  ms !! r_factor = None \/ ms !! k_factor = None \/ ms !! c_factor = None ->
  post (usped E elevation erosion flow_accumulation r_factor c_factor k_factor
          ls_factor m n) (World ms fs)
    (fun r w cs =>
       r = inr (CalledModuleError "r.mapcalc")
       /\ last cs = Some (Cmd_mapcalc "sedflow"
                            (Mul (Mul (Mul (Map r_factor) (Map k_factor)) (Map c_factor))
                                 (Map ls_factor)))
       /\ is_Some (mapset w !! flow_accumulation)
       /\ is_Some (mapset w !! ls_factor)
       /\ mapset w !! erosion = ms !! erosion
       /\ Forall (fun s => is_Some (mapset w !! s))
            ["slope"; "aspect"; "grow_slope"; "grow_aspect"; "flowacc"]
       /\ exitfuncs w = fs).
Proof.
  intros Hn [z Hz] Hmiss. split_names Hn.
  unfold usped. repeat step.
  three_factors Hmiss r_factor k_factor c_factor ms.
  all: eapply post_mapcalc_err; [absent|].
  all: cbn [mapset exitfuncs]; repeat split; try reflexivity.
  all: try (lookups; eauto; reflexivity).
  all: present.
Qed.

Lemma usped_stops_at_sediment_flow_without_factor_witness :
  well_named usped_scratch ["erosion"; "flow_accumulation"; "ls_factor"]
    ["dem"; "rain"; "cover"; "soil"] = true
  /\ is_Some (dem_only !! "dem")
  /\ post (usped plain_engine "dem" "erosion" "flow_accumulation" "rain" "cover" "soil"
             "ls_factor" 1.5%Q 1.2%Q) (World dem_only [])
       (fun r w cs =>
          r = inr (CalledModuleError "r.mapcalc")
          /\ last cs = Some (Cmd_mapcalc "sedflow"
                               (Mul (Mul (Mul (Map "rain") (Map "soil")) (Map "cover"))
                                    (Map "ls_factor")))
          /\ is_Some (mapset w !! "flow_accumulation")
          /\ is_Some (mapset w !! "ls_factor")
          /\ mapset w !! "erosion" = dem_only !! "erosion"
          /\ Forall (fun s => is_Some (mapset w !! s))
               ["slope"; "aspect"; "grow_slope"; "grow_aspect"; "flowacc"]
          /\ exitfuncs w = []).
Proof.
  assert (Hn : well_named usped_scratch ["erosion"; "flow_accumulation"; "ls_factor"]
                 ["dem"; "rain"; "cover"; "soil"] = true) by (vm_compute; reflexivity).
  assert (Hz : is_Some (dem_only !! "dem")).
  { unfold dem_only. rewrite lookup_singleton_eq. eauto. }
  split; [exact Hn|]. split; [exact Hz|].
  apply (usped_stops_at_sediment_flow_without_factor plain_engine
           "dem" "erosion" "flow_accumulation" "rain" "cover" "soil" "ls_factor"
           1.5%Q 1.2%Q dem_only [] Hn Hz).
  left. unfold dem_only. apply lookup_singleton_ne. discriminate.
Defined.

(** ** A process whose inputs exist *)

Lemma post_mono {A} (m : M A) w (Q Q' : A + exn -> world -> list call -> Prop) :
  post m w Q -> (forall r w' cs, Q r w' cs -> Q' r w' cs) -> post m w Q'.
Proof. unfold post. auto. Qed.

Section Existing.

Variable E : Engine.

Lemma alternative_inputs_returns o ms fs :
  is_Some (ms !! opt_elevation o) ->
  (opt_rain_intensity o = None -> py_not (opt_r_factor o) = false ->
   is_Some (ms !! opt_r_factor o)) ->
  (py_not (opt_c_factor o) = false -> is_Some (ms !! opt_c_factor o)) ->
  (py_not (opt_k_factor o) = false -> is_Some (ms !! opt_k_factor o)) ->
  (is_Some (opt_rain_intensity o) ->
   is_Some (opt_rain_duration o)
   /\ Forall (fun n => n ∉ event_scratch)
        [opt_elevation o; opt_c_factor o; opt_k_factor o]) ->
  post (alternative_inputs E o) (World ms fs)
    (fun r w cs =>
       exists rf cf kf,
         r = inl (rf, cf, kf)
         /\ is_Some (mapset w !! opt_elevation o)
         /\ is_Some (mapset w !! rf)
         /\ is_Some (mapset w !! kf)
         /\ is_Some (mapset w !! cf)).
Proof.
  intros Hz Hr Hc Hk Hrain.
  unfold alternative_inputs, r_factor_input, c_factor_input, k_factor_input.
  destruct (opt_rain_intensity o) as [i|].
  - destruct Hrain as [[d Hd] Hnames]; [eauto|]. rewrite Hd.
    unfold event_scratch in Hnames.
    repeat match goal with
    | H : Forall _ (_ :: _) |- _ => apply Forall_cons in H as [? H]
    | H : _ ∉ _ :: _ |- _ => apply not_elem_of_cons in H as [? H]
    end.
    clear Hr.
    destruct (py_not (opt_c_factor o)); [clear Hc | specialize (Hc eq_refl)];
      (destruct (py_not (opt_k_factor o)); [clear Hk | specialize (Hk eq_refl)]).
    all: unfold event_based_r_factor; cbn [subst_int]; repeat advance.
    all: eexists _, _, _; split; [reflexivity|]; cbn [mapset]; repeat split; kept.
  - clear Hrain. specialize (Hr eq_refl).
    destruct (py_not (opt_r_factor o)); [clear Hr | specialize (Hr eq_refl)];
      (destruct (py_not (opt_c_factor o)); [clear Hc | specialize (Hc eq_refl)]);
      (destruct (py_not (opt_k_factor o)); [clear Hk | specialize (Hk eq_refl)]).
    all: repeat advance.
    all: eexists _, _, _; split; [reflexivity|]; cbn [mapset]; repeat split; kept.
Qed.

Lemma run_model_returns o r_factor c_factor k_factor ms fs :
  is_Some (ms !! opt_elevation o) ->
  is_Some (ms !! r_factor) -> is_Some (ms !! k_factor) -> is_Some (ms !! c_factor) ->
  result (run_model E o r_factor c_factor k_factor (World ms fs)) = inl tt.
Proof.
  intros Hz Hr Hk Hc. unfold run_model.
  destruct (String.eqb (opt_model o) "rusle") eqn:Hrusle;
    destruct (String.eqb (opt_model o) "usped") eqn:Husped.
  - apply String.eqb_eq in Hrusle, Husped. congruence.
  - rewrite (bind_inl _ _ _ tt) by (apply rusle_returns; assumption). reflexivity.
  - unfold bind, ret. cbn [result after]. apply usped_returns; assumption.
  - reflexivity.
Qed.

Lemma main_exits_when_inputs_exist o ms :
  is_Some (ms !! opt_elevation o) ->
  (opt_rain_intensity o = None -> py_not (opt_r_factor o) = false ->
   is_Some (ms !! opt_r_factor o)) ->
  (py_not (opt_c_factor o) = false -> is_Some (ms !! opt_c_factor o)) ->
  (py_not (opt_k_factor o) = false -> is_Some (ms !! opt_k_factor o)) ->
  (is_Some (opt_rain_intensity o) ->
   is_Some (opt_rain_duration o)
   /\ Forall (fun n => n ∉ event_scratch)
        [opt_elevation o; opt_c_factor o; opt_k_factor o]) ->
  result (main E o (World ms [])) = inr (SystemExit 0).
Proof.
  intros Hz Hr Hc Hk Hrain.
  pose proof (alternative_inputs_returns o ms [] Hz Hr Hc Hk Hrain) as H.
  unfold post in H. destruct H as (rf & cf & kf & Hres & Hz' & Hr' & Hk' & Hc').
  unfold main. rewrite (bind_inl _ _ _ _ Hres).
  destruct (after (alternative_inputs E o (World ms []))) as [ms1 fs1].
  cbn [mapset] in *.
  rewrite (bind_inl _ _ _ tt) by (apply run_model_returns; assumption).
  reflexivity.
Qed.

End Existing.

(** X11. The process ends with status 0, and with [cleanup] run once,
    whenever the rasters it is asked to read exist: the elevation, and
    each factor raster that is named on the command line ([r_factor] only
    when no [rain_intensity] is given, which would replace it).  With
    [rain_intensity] the [rain_duration] has to be given as well, and the
    elevation and the named [c_factor] and [k_factor] rasters must not
    carry one of the three names the event-based routine removes.  No
    other condition on the names is needed, and the model may be either
    one. *)
Theorem process_succeeds_when_inputs_exist (E : Engine) o ms :
  is_Some (ms !! opt_elevation o) ->
  (opt_rain_intensity o = None -> py_not (opt_r_factor o) = false ->
   is_Some (ms !! opt_r_factor o)) ->
  (py_not (opt_c_factor o) = false -> is_Some (ms !! opt_c_factor o)) ->
  (py_not (opt_k_factor o) = false -> is_Some (ms !! opt_k_factor o)) ->
  (is_Some (opt_rain_intensity o) ->
   is_Some (opt_rain_duration o)
   /\ Forall (fun n => n ∉ event_scratch)
        [opt_elevation o; opt_c_factor o; opt_k_factor o]) ->
  exit_status (script E o ms) = 0%Z
  /\ cleanup_invocations (script E o ms) = 1%nat.
Proof.
  intros Hz Hr Hc Hk Hrain.
  pose proof (main_exits_when_inputs_exist E o ms Hz Hr Hc Hk Hrain) as Hmain.
  split.
  - rewrite script_exit_status, Hmain. reflexivity.
  - rewrite cleanup_only_after_success, Hmain. reflexivity.
Qed.

Lemma process_succeeds_when_inputs_exist_witness :
  is_Some (dem_only !! opt_elevation storm)
  /\ exit_status (script plain_engine storm dem_only) = 0%Z
  /\ cleanup_invocations (script plain_engine storm dem_only) = 1%nat.
Proof.
  assert (Hz : is_Some (dem_only !! opt_elevation storm)).
  { unfold dem_only, storm. cbn [opt_elevation]. rewrite lookup_singleton_eq. eauto. }
  split; [exact Hz|].
  apply (process_succeeds_when_inputs_exist plain_engine storm dem_only Hz).
  - discriminate.
  - discriminate.
  - discriminate.
  - intros _. split; [cbn; eauto|].
    unfold event_scratch, storm. cbn [opt_elevation opt_c_factor opt_k_factor].
    repeat (apply Forall_cons_2; [not_member|]). apply Forall_nil_2.
Defined.

(** ** A storm of no duration *)

Lemma v_div_by_zero x y : y = 0 -> v_div x (Some y) = None.
Proof.
  intros ->. destruct x as [x|]; [|reflexivity].
  cbn [v_div lift2]. destruct (Req_dec_T 0 0); [reflexivity | contradiction].
Qed.

Lemma zero_over_minutes_of_year d : Q2R d = 0 -> v_div (Some (Q2R d)) (Some 525600) = Some 0.
Proof.
  intros ->. rewrite v_div_some by lra. f_equal. lra.
Qed.

Lemma names_kept (ms : gmap string raster) k (g : raster) names :
  Forall (fun n => is_Some (ms !! n)) names ->
  Forall (fun n => is_Some (<[k := g]> ms !! n)) names.
Proof.
  intros H. eapply Forall_impl; [exact H|].
  intros n Hn. apply lookup_insert_is_Some'. right. exact Hn.
Qed.

Section NoDuration.

Variable E : Engine.

Ltac reads Hb Hn :=
  first
    [ apply post_mapcalc_some;
      [ cbn [no_blank]; rewrite ?Hb; reflexivity
      | cbn [names_of app]; rewrite ?app_nil_r;
        repeat (apply Forall_cons_2; [kept|]);
        repeat apply names_kept; exact Hn
      | intros ? ] ].

Lemma event_based_r_factor_null i d ms fs :
  no_blank i = true ->
  Forall (fun n => is_Some (ms !! n)) (names_of i) ->
  Q2R d = 0 ->
  post (event_based_r_factor E i (Num d)) (World ms fs)
    (fun r w cs =>
       r = inl "r_factor"
       /\ exists g : raster, mapset w !! "r_factor" = Some g /\ forall c, g c = None).
Proof.
  intros Hb Hn Hd. unfold event_based_r_factor.
  apply post_bind. reads Hb Hn. cbn beta iota.
  apply post_bind. reads Hb Hn. cbn beta iota.
  apply post_bind. reads Hb Hn. cbn beta iota.
  repeat step.
  split; [reflexivity|]. cbn [mapset].
  eexists. split; [lookups; reflexivity|].
  intros c. subst. cellwise.
  rewrite zero_over_minutes_of_year by exact Hd.
  apply v_div_by_zero. reflexivity.
Qed.

Lemma rfactor_event_based_r_factor_null i d ms fs :
  no_blank i = true ->
  Forall (fun n => is_Some (ms !! n)) (names_of i) ->
  Q2R d = 0 ->
  post (RFactor.event_based_r_factor E i (Num d)) (World ms fs)
    (fun r w cs =>
       r = inl "r_factor"
       /\ exists g : raster, mapset w !! "r_factor" = Some g /\ forall c, g c = None).
Proof.
  intros Hb Hn Hd. unfold RFactor.event_based_r_factor.
  apply post_bind. reads Hb Hn. cbn beta iota.
  apply post_bind. reads Hb Hn. cbn beta iota.
  apply post_bind. reads Hb Hn. cbn beta iota.
  repeat step.
  split; [reflexivity|]. cbn [mapset].
  eexists. split; [lookups; reflexivity|].
  intros c. subst. cellwise.
  rewrite zero_over_minutes_of_year by exact Hd.
  apply v_div_by_zero. reflexivity.
Qed.

End NoDuration.

(** X12. A rain duration of zero is not refused: given a rain intensity
    that the raster calculator can read (a number, or rasters that
    exist), the event-based routine of either script returns normally,
    and the [r_factor] raster it leaves is NULL in every cell, the last
    expression dividing by [0/525600]. *)
Theorem no_duration_gives_null_r_factor (E : Engine) (i : expr) (d : Q) ms fs :
  no_blank i = true ->
  Forall (fun n => is_Some (ms !! n)) (names_of i) ->
  (d == 0)%Q ->
  post (event_based_r_factor E i (Num d)) (World ms fs)
    (fun r w cs =>
       r = inl "r_factor"
       /\ exists g : raster, mapset w !! "r_factor" = Some g /\ forall c, g c = None)
  /\ post (RFactor.event_based_r_factor E i (Num d)) (World ms fs)
       (fun r w cs =>
          r = inl "r_factor"
          /\ exists g : raster, mapset w !! "r_factor" = Some g /\ forall c, g c = None).
Proof.
  intros Hb Hn Hd.
  assert (Hd' : Q2R d = 0).
  { rewrite (Qeq_eqR _ _ Hd). literal. }
  split.
  - apply event_based_r_factor_null; assumption.
  - apply rfactor_event_based_r_factor_null; assumption.
Qed.

Lemma no_duration_gives_null_r_factor_witness :
  Forall (fun n => is_Some (rain_intensity_50 !! n)) (names_of (Map "rain_intensity"))
  /\ post (event_based_r_factor plain_engine (Map "rain_intensity") (Num 0))
       (World rain_intensity_50 [])
       (fun r w cs =>
          r = inl "r_factor"
          /\ exists g : raster, mapset w !! "r_factor" = Some g /\ forall c, g c = None)
  /\ post (RFactor.event_based_r_factor plain_engine (Map "rain_intensity") (Num 0))
       (World rain_intensity_50 [])
       (fun r w cs =>
          r = inl "r_factor"
          /\ exists g : raster, mapset w !! "r_factor" = Some g /\ forall c, g c = None).
Proof.
  assert (Hn : Forall (fun n => is_Some (rain_intensity_50 !! n))
                 (names_of (Map "rain_intensity"))).
  { cbn [names_of]. apply Forall_cons_2; [|apply Forall_nil_2].
    unfold rain_intensity_50. rewrite lookup_singleton_eq. eauto. }
  split; [exact Hn|].
  apply (no_duration_gives_null_r_factor plain_engine (Map "rain_intensity") 0
           rain_intensity_50 [] eq_refl Hn).
  reflexivity.
Defined.

(** ** Running a model again *)

Ltac same_raster k :=
  repeat (lookups;
          match goal with
          | |- context [delete ?x _ !! k] =>
              destruct (decide (k = x)) as [->|?]; [lookups; reflexivity|]
          | |- context [<[?x := _]> _ !! k] =>
              destruct (decide (k = x)) as [->|?]; [lookups; reflexivity|]
          end);
  lookups; reflexivity.

Section Again.

Variable E : Engine.

Lemma rusle_again elevation erosion flow_accumulation r_factor c_factor k_factor
    ls_factor m n ms fs :
  well_named rusle_scratch [erosion; flow_accumulation; ls_factor]
    [elevation; r_factor; c_factor; k_factor] = true ->
  is_Some (ms !! elevation) ->
  is_Some (ms !! r_factor) -> is_Some (ms !! k_factor) -> is_Some (ms !! c_factor) ->
  post (rusle E elevation erosion flow_accumulation r_factor c_factor k_factor
          ls_factor m n) (World ms fs)
    (fun r1 w1 _ =>
       r1 = inl tt
       /\ post (rusle E elevation erosion flow_accumulation r_factor c_factor k_factor
                  ls_factor m n) w1
            (fun r2 w2 _ => r2 = inl tt /\ w2 = w1)).
Proof.
  intros Hn [z Hz] [gr Hr] [gk Hk] [gc Hc]. split_names Hn.
  unfold rusle at 1. repeat step.
  split; [reflexivity|].
  unfold rusle. repeat step.
  split; [reflexivity|].
  subst. f_equal. apply map_eq. intros k.
  same_raster k.
Qed.

Lemma usped_again elevation erosion flow_accumulation r_factor c_factor k_factor
    ls_factor m n ms fs :
  well_named usped_scratch [erosion; flow_accumulation; ls_factor]
    [elevation; r_factor; c_factor; k_factor] = true ->
  is_Some (ms !! elevation) ->
  is_Some (ms !! r_factor) -> is_Some (ms !! k_factor) -> is_Some (ms !! c_factor) ->
  post (usped E elevation erosion flow_accumulation r_factor c_factor k_factor
          ls_factor m n) (World ms fs)
    (fun r1 w1 _ =>
       r1 = inl tt
       /\ post (usped E elevation erosion flow_accumulation r_factor c_factor k_factor
                  ls_factor m n) w1
            (fun r2 w2 _ => r2 = inl tt /\ w2 = w1)).
Proof.
  intros Hn [z Hz] [gr Hr] [gk Hk] [gc Hc]. split_names Hn.
  unfold usped at 1. repeat step.
  split; [reflexivity|].
  unfold usped. repeat step.
  split; [reflexivity|].
  subst. f_equal. apply map_eq. intros k.
  same_raster k.
Qed.

End Again.

(** X13. Running [rusle] a second time over the mapset its first run has
    left changes nothing: with distinct input, output and scratch names
    and existing inputs, the second run returns normally and ends in the
    very world the first run ended in, outputs and all.  The routine reads
    none of its own outputs as an input, and the scratch rasters it
    removes are written anew before they are read. *)
Theorem rusle_twice_is_rusle_once (E : Engine)
    elevation erosion flow_accumulation r_factor c_factor k_factor ls_factor m n ms fs :
  well_named rusle_scratch [erosion; flow_accumulation; ls_factor]
    [elevation; r_factor; c_factor; k_factor] = true ->
  is_Some (ms !! elevation) ->
  is_Some (ms !! r_factor) -> is_Some (ms !! k_factor) -> is_Some (ms !! c_factor) ->
  let run := rusle E elevation erosion flow_accumulation r_factor c_factor k_factor
               ls_factor m n in
  result (run (after (run (World ms fs)))) = inl tt
  /\ after (run (after (run (World ms fs)))) = after (run (World ms fs)).
Proof.
  intros Hn Hz Hr Hk Hc run.
  destruct (rusle_again E elevation erosion flow_accumulation r_factor c_factor k_factor
              ls_factor m n ms fs Hn Hz Hr Hk Hc) as [_ H].
  exact H.
Qed.

Lemma rusle_twice_is_rusle_once_witness :
  well_named rusle_scratch ["erosion"; "flow_accumulation"; "ls_factor"]
    ["dem"; "rain"; "cover"; "soil"] = true
  /\ (let run := rusle plain_engine "dem" "erosion" "flow_accumulation" "rain" "cover"
                   "soil" "ls_factor" 1.5%Q 1.2%Q in
      result (run (after (run (World four_rasters [])))) = inl tt
      /\ after (run (after (run (World four_rasters []))))
         = after (run (World four_rasters []))).
Proof.
  assert (Hn : well_named rusle_scratch ["erosion"; "flow_accumulation"; "ls_factor"]
                 ["dem"; "rain"; "cover"; "soil"] = true) by (vm_compute; reflexivity).
  split; [exact Hn|].
  apply (rusle_twice_is_rusle_once plain_engine "dem" "erosion" "flow_accumulation"
           "rain" "cover" "soil" "ls_factor" 1.5%Q 1.2%Q four_rasters [] Hn).
  - rewrite four_rasters_dem. eauto.
  - rewrite four_rasters_rain. eauto.
  - rewrite four_rasters_soil. eauto.
  - rewrite four_rasters_cover. eauto.
Defined.

(** X14. Running [usped] a second time over the mapset its first run has
    left changes nothing: with distinct input, output and scratch names
    and existing inputs, the second run returns normally and ends in the
    very world the first run ended in. *)
Theorem usped_twice_is_usped_once (E : Engine)
    elevation erosion flow_accumulation r_factor c_factor k_factor ls_factor m n ms fs :
  well_named usped_scratch [erosion; flow_accumulation; ls_factor]
    [elevation; r_factor; c_factor; k_factor] = true ->
  is_Some (ms !! elevation) ->
  is_Some (ms !! r_factor) -> is_Some (ms !! k_factor) -> is_Some (ms !! c_factor) ->
  let run := usped E elevation erosion flow_accumulation r_factor c_factor k_factor
               ls_factor m n in
  result (run (after (run (World ms fs)))) = inl tt
  /\ after (run (after (run (World ms fs)))) = after (run (World ms fs)).
Proof.
  intros Hn Hz Hr Hk Hc run.
  destruct (usped_again E elevation erosion flow_accumulation r_factor c_factor k_factor
              ls_factor m n ms fs Hn Hz Hr Hk Hc) as [_ H].
  exact H.
Qed.

Lemma usped_twice_is_usped_once_witness :
  well_named usped_scratch ["erosion"; "flow_accumulation"; "ls_factor"]
    ["dem"; "rain"; "cover"; "soil"] = true
  /\ (let run := usped plain_engine "dem" "erosion" "flow_accumulation" "rain" "cover"
                   "soil" "ls_factor" 1.5%Q 1.2%Q in
      result (run (after (run (World four_rasters [])))) = inl tt
      /\ after (run (after (run (World four_rasters []))))
         = after (run (World four_rasters []))).
Proof.
  assert (Hn : well_named usped_scratch ["erosion"; "flow_accumulation"; "ls_factor"]
                 ["dem"; "rain"; "cover"; "soil"] = true) by (vm_compute; reflexivity).
  split; [exact Hn|].
  apply (usped_twice_is_usped_once plain_engine "dem" "erosion" "flow_accumulation"
           "rain" "cover" "soil" "ls_factor" 1.5%Q 1.2%Q four_rasters [] Hn).
  - rewrite four_rasters_dem. eauto.
  - rewrite four_rasters_rain. eauto.
  - rewrite four_rasters_soil. eauto.
  - rewrite four_rasters_cover. eauto.
Defined.

(** ** What a successful process delivers *)

Section Delivery.

Variable E : Engine.

Ltac names_apart H :=
  unfold cleanup_names in H;
  repeat match goal with
  | H : Forall _ (_ :: _) |- _ => apply Forall_cons in H as [? H]
  | H : _ ∉ _ :: _ |- _ => apply not_elem_of_cons in H as [? H]
  end.

Ltac delivered :=
  split; [reflexivity|]; cbn [mapset];
  repeat (apply Forall_cons_2; [kept|]); apply Forall_nil_2.

Lemma rusle_delivers elevation erosion flow_accumulation r_factor c_factor k_factor
    ls_factor m n ms fs :
  is_Some (ms !! elevation) ->
  is_Some (ms !! r_factor) -> is_Some (ms !! k_factor) -> is_Some (ms !! c_factor) ->
  Forall (fun x => x ∉ cleanup_names) [erosion; flow_accumulation; ls_factor] ->
  post (rusle E elevation erosion flow_accumulation r_factor c_factor k_factor
          ls_factor m n) (World ms fs)
    (fun r w _ =>
       r = inl tt
       /\ Forall (fun x => is_Some (mapset w !! x))
            [erosion; flow_accumulation; ls_factor]).
Proof.
  intros Hz Hr Hk Hc Hout. names_apart Hout.
  unfold rusle. repeat advance. delivered.
Qed.

Lemma usped_delivers elevation erosion flow_accumulation r_factor c_factor k_factor
    ls_factor m n ms fs :
  is_Some (ms !! elevation) ->
  is_Some (ms !! r_factor) -> is_Some (ms !! k_factor) -> is_Some (ms !! c_factor) ->
  Forall (fun x => x ∉ cleanup_names) [erosion; flow_accumulation; ls_factor] ->
  post (usped E elevation erosion flow_accumulation r_factor c_factor k_factor
          ls_factor m n) (World ms fs)
    (fun r w _ =>
       r = inl tt
       /\ Forall (fun x => is_Some (mapset w !! x))
            [erosion; flow_accumulation; ls_factor]).
Proof.
  intros Hz Hr Hk Hc Hout. names_apart Hout.
  unfold usped. repeat advance. delivered.
Qed.

Lemma run_model_delivers o r_factor c_factor k_factor ms fs :
  opt_model o = "rusle" \/ opt_model o = "usped" ->
  is_Some (ms !! opt_elevation o) ->
  is_Some (ms !! r_factor) -> is_Some (ms !! k_factor) -> is_Some (ms !! c_factor) ->
  Forall (fun x => x ∉ cleanup_names)
    [opt_erosion o; opt_flow_accumulation o; opt_ls_factor o] ->
  post (run_model E o r_factor c_factor k_factor) (World ms fs)
    (fun r w _ =>
       r = inl tt
       /\ Forall (fun x => is_Some (mapset w !! x))
            [opt_erosion o; opt_flow_accumulation o; opt_ls_factor o]).
Proof.
  intros Hm Hz Hr Hk Hc Hout. unfold run_model.
  destruct Hm as [-> | ->].
  - change (String.eqb "rusle" "rusle") with true.
    change (String.eqb "rusle" "usped") with false. cbn beta iota.
    apply post_bind.
    eapply post_mono; [apply rusle_delivers; assumption|].
    intros r w cs [-> Hw]. apply post_ret. split; [reflexivity | exact Hw].
  - change (String.eqb "usped" "rusle") with false.
    change (String.eqb "usped" "usped") with true. cbn beta iota.
    apply post_bind. apply post_ret.
    eapply post_mono; [apply usped_delivers; assumption|].
    intros r w cs H. exact H.
Qed.

Lemma main_delivers o ms :
  is_Some (ms !! opt_elevation o) ->
  (opt_rain_intensity o = None -> py_not (opt_r_factor o) = false ->
   is_Some (ms !! opt_r_factor o)) ->
  (py_not (opt_c_factor o) = false -> is_Some (ms !! opt_c_factor o)) ->
  (py_not (opt_k_factor o) = false -> is_Some (ms !! opt_k_factor o)) ->
  (is_Some (opt_rain_intensity o) ->
   is_Some (opt_rain_duration o)
   /\ Forall (fun n => n ∉ event_scratch)
        [opt_elevation o; opt_c_factor o; opt_k_factor o]) ->
  opt_model o = "rusle" \/ opt_model o = "usped" ->
  Forall (fun x => x ∉ cleanup_names)
    [opt_erosion o; opt_flow_accumulation o; opt_ls_factor o] ->
  post (main E o) (World ms [])
    (fun r w _ =>
       r = inr (SystemExit 0)
       /\ Forall (fun x => is_Some (mapset w !! x))
            [opt_erosion o; opt_flow_accumulation o; opt_ls_factor o]).
Proof.
  intros Hz Hr Hc Hk Hrain Hm Hout.
  unfold main. apply post_bind.
  eapply post_mono; [apply alternative_inputs_returns; eassumption|].
  intros r [ms1 fs1] cs (rf & cf & kf & -> & Hz' & Hr' & Hk' & Hc').
  cbn [mapset] in *. cbn beta iota.
  apply post_bind.
  eapply post_mono; [apply run_model_delivers; eassumption|].
  intros r [ms2 fs2] cs2 [-> Hw]. cbn [mapset] in *.
  apply post_bind. apply post_atexit_register. apply post_raise.
  split; [reflexivity | exact Hw].
Qed.

End Delivery.

(** X15. The rasters a successful run leaves: when the inputs exist (as for
    the process to succeed), the model is [rusle] or [usped], and none of
    the three output names is one of the names [cleanup] removes, the
    process ends with status 0 and the mapset holds the [erosion],
    [flow_accumulation] and [ls_factor] outputs.  The outputs need not
    differ from each other or from the inputs for this. *)
Theorem process_delivers_outputs (E : Engine) o ms :
  is_Some (ms !! opt_elevation o) ->
  (opt_rain_intensity o = None -> py_not (opt_r_factor o) = false ->
   is_Some (ms !! opt_r_factor o)) ->
  (py_not (opt_c_factor o) = false -> is_Some (ms !! opt_c_factor o)) ->
  (py_not (opt_k_factor o) = false -> is_Some (ms !! opt_k_factor o)) ->
  (is_Some (opt_rain_intensity o) ->
   is_Some (opt_rain_duration o)
   /\ Forall (fun n => n ∉ event_scratch)
        [opt_elevation o; opt_c_factor o; opt_k_factor o]) ->
  opt_model o = "rusle" \/ opt_model o = "usped" ->
  Forall (fun x => x ∉ cleanup_names)
    [opt_erosion o; opt_flow_accumulation o; opt_ls_factor o] ->
  exit_status (script E o ms) = 0%Z
  /\ Forall (fun x => is_Some (left_behind (script E o ms) !! x))
       [opt_erosion o; opt_flow_accumulation o; opt_ls_factor o].
Proof.
  intros Hz Hr Hc Hk Hrain Hm Hout.
  destruct (main_delivers E o ms Hz Hr Hc Hk Hrain Hm Hout) as [Hres Hw].
  split; [rewrite script_exit_status, Hres; reflexivity|].
  rewrite left_behind_script.
  destruct (main_registers_last E o ms) as [[_ Hf]|[prog [Hp _]]];
    [|rewrite Hp in Hres; discriminate Hres].
  rewrite Hf. cbn [run_exitfuncs run_exitfunc fst].
  rewrite Forall_forall in Hout, Hw. apply Forall_forall. intros x Hx.
  unfold cleanup, try_pass, g_remove.
  destruct (remove_strict E && negb (forallb (has _) cleanup_names));
    cbn [result after with_mapset mapset];
    (rewrite lookup_foldr_delete_notin by (apply Hout, Hx)); apply Hw, Hx.
Qed.

Lemma process_delivers_outputs_witness :
  is_Some (dem_only !! opt_elevation storm)
  /\ exit_status (script plain_engine storm dem_only) = 0%Z
  /\ Forall (fun x => is_Some (left_behind (script plain_engine storm dem_only) !! x))
       [opt_erosion storm; opt_flow_accumulation storm; opt_ls_factor storm].
Proof.
  assert (Hz : is_Some (dem_only !! opt_elevation storm)).
  { unfold dem_only, storm. cbn [opt_elevation]. rewrite lookup_singleton_eq. eauto. }
  split; [exact Hz|].
  apply (process_delivers_outputs plain_engine storm dem_only Hz).
  - discriminate.
  - discriminate.
  - discriminate.
  - intros _. split; [cbn; eauto|].
    unfold event_scratch, storm. cbn [opt_elevation opt_c_factor opt_k_factor].
    repeat (apply Forall_cons_2; [not_member|]). apply Forall_nil_2.
  - left. reflexivity.
  - unfold cleanup_names, storm. cbn [opt_erosion opt_flow_accumulation opt_ls_factor].
    repeat (apply Forall_cons_2; [not_member|]). apply Forall_nil_2.
Defined.

(** ** The topographic factor *)

(** X16. The [ls_factor] output of the two models, cell by cell, in terms
    of the elevation [z]: with the flow taken as the accumulation of [z]
    times the resolution, and the slope as the grown slope of [z], RUSLE3D
    writes [(m + 1) * (flow / 22.1)^m * (sin slope / 5.14)^n] and USPED
    writes [flow^m * (sin slope)^n]. *)
Theorem topographic_factor_of_both_models (E : Engine)
    (elevation erosion flow_accumulation r_factor c_factor k_factor ls_factor : string)
    (m n : Q) ms fs (z gr gk gc : raster) :
  ms !! elevation = Some z ->
  ms !! r_factor = Some gr ->
  ms !! k_factor = Some gk ->
  ms !! c_factor = Some gc ->
  (well_named rusle_scratch [erosion; flow_accumulation; ls_factor]
     [elevation; r_factor; c_factor; k_factor] = true ->
   exists ls : raster,
     mapset (after (rusle E elevation erosion flow_accumulation r_factor c_factor
                      k_factor ls_factor m n (World ms fs))) !! ls_factor = Some ls
     /\ forall c, ls c =
          v_mul (v_mul (Some (Q2R m + 1))
                   (v_pow (v_div (v_mul (accumulation_of E z c) (Some (Q2R (nsres E))))
                                 (Some 22.1))
                          (Some (Q2R m))))
                (v_pow (v_div (v_sin (grow_of E (slope_of E z) c)) (Some 5.14))
                       (Some (Q2R n))))
  /\ (well_named usped_scratch [erosion; flow_accumulation; ls_factor]
        [elevation; r_factor; c_factor; k_factor] = true ->
      exists ls : raster,
        mapset (after (usped E elevation erosion flow_accumulation r_factor c_factor
                         k_factor ls_factor m n (World ms fs))) !! ls_factor = Some ls
        /\ forall c, ls c =
             v_mul (v_pow (v_mul (accumulation_of E z c) (Some (Q2R (nsres E))))
                          (Some (Q2R m)))
                   (v_pow (v_sin (grow_of E (slope_of E z) c)) (Some (Q2R n)))).
Proof.
  intros Hz Hr Hk Hc. split; intros Hn.
  - pose proof (rusle_run E _ _ _ _ _ _ _ m n ms fs z gr gk gc Hn Hz Hr Hk Hc) as H.
    unfold post in H.
    destruct H as (_ & _ & fa & ls & er & _ & Hls & _ & Hfac & Hlsc & _).
    exists ls. split; [exact Hls|]. intros c. rewrite Hlsc, Hfac. reflexivity.
  - pose proof (usped_run E _ _ _ _ _ _ _ m n ms fs z gr gk gc Hn Hz Hr Hk Hc) as H.
    unfold post in H.
    destruct H as (_ & _ & fa & ls & er & fl & qx & qy & _ & Hls & _ & Hfac & Hlsc & _).
    exists ls. split; [exact Hls|]. intros c. rewrite Hlsc, Hfac. reflexivity.
Qed.

Lemma topographic_factor_of_both_models_witness :
  well_named usped_scratch ["erosion"; "flow_accumulation"; "ls_factor"]
    ["dem"; "rain"; "cover"; "soil"] = true
  /\ exists ls : raster,
       mapset (after (usped plain_engine "dem" "erosion" "flow_accumulation" "rain"
                        "cover" "soil" "ls_factor" 1.5%Q 1.2%Q (World four_rasters [])))
         !! "ls_factor" = Some ls
       /\ forall c, ls c =
            v_mul (v_pow (v_mul (accumulation_of plain_engine (constant 100) c)
                                (Some (Q2R (nsres plain_engine))))
                         (Some (Q2R 1.5)))
                  (v_pow (v_sin (grow_of plain_engine
                                   (slope_of plain_engine (constant 100)) c))
                         (Some (Q2R 1.2))).
Proof.
  assert (Hn : well_named usped_scratch ["erosion"; "flow_accumulation"; "ls_factor"]
                 ["dem"; "rain"; "cover"; "soil"] = true) by (vm_compute; reflexivity).
  split; [exact Hn|].
  destruct (topographic_factor_of_both_models plain_engine
              "dem" "erosion" "flow_accumulation" "rain" "cover" "soil" "ls_factor"
              1.5%Q 1.2%Q four_rasters [] _ _ _ _
              four_rasters_dem four_rasters_rain four_rasters_soil four_rasters_cover)
    as [_ Husped].
  exact (Husped Hn).
Defined.

(** ** A storm without a duration *)

(** X17. Whenever [rain_intensity] is given and [rain_duration] is not, the
    process fails: the event-based routine is entered, its first
    expression writes [rain_energy], its second, with nothing where the
    duration should be, is refused by the raster calculator.  The process
    exits with status 1 after these two commands, [cleanup] does not run,
    [rain_energy] stays in the mapset and every other raster is as it
    was: no model command is sent and no output is written. *)
Theorem process_fails_without_rain_duration (E : Engine) o ms i :
  opt_rain_intensity o = Some i ->
  opt_rain_duration o = None ->
  let p := script E o ms in
  exit_status p = 1%Z
  /\ cleanup_invocations p = 0%nat
  /\ length (journal p) = 2%nat
  /\ last (journal p)
     = Some (Cmd_mapcalc "rain_volume"
               (Mul (Num (inject_Z i)) (Div Blank (Num 60))))
  /\ is_Some (left_behind p !! "rain_energy")
  /\ forall n, n <> "rain_energy" -> left_behind p !! n = ms !! n.
Proof.
  intros Hi Hd. cbv zeta.
  assert (Hmain : post (main E o) (World ms [])
            (fun r w cs =>
               r = inr (CalledModuleError "r.mapcalc")
               /\ length cs = 2%nat
               /\ last cs = Some (Cmd_mapcalc "rain_volume"
                                    (Mul (Num (inject_Z i)) (Div Blank (Num 60))))
               /\ is_Some (mapset w !! "rain_energy")
               /\ forall n, n <> "rain_energy" -> mapset w !! n = ms !! n)).
  { unfold main, alternative_inputs, r_factor_input, event_based_r_factor.
    rewrite Hi, Hd. cbn [subst_int].
    repeat step.
    split; [reflexivity|]. split; [reflexivity|]. split; [reflexivity|].
    cbn [mapset]. split.
    - lookups. eauto.
    - intros n Hn. lookups. reflexivity. }
  unfold post in Hmain. destruct Hmain as (Hres & Hlen & Hlast & Hre & Hother).
  destruct (script_after_error E o ms _ Hres) as [Hleft Hinv].
  rewrite script_exit_status, cleanup_only_after_success, Hres, Hleft.
  split; [reflexivity|]. split; [reflexivity|].
  assert (Hj : journal (script E o ms) = calls (main E o (World ms []))).
  { unfold script.
    destruct (main_registers_last E o ms) as [[Hr _]|[p [_ Hf]]]; [congruence|].
    rewrite Hf. cbn [run_exitfuncs]. cbn [journal]. apply app_nil_r. }
  rewrite Hj. auto.
Qed.

Lemma process_fails_without_rain_duration_witness :
  opt_rain_intensity storm_without_duration = Some 50%Z
  /\ opt_rain_duration storm_without_duration = None
  /\ exit_status (script plain_engine storm_without_duration dem_only) = 1%Z
  /\ cleanup_invocations (script plain_engine storm_without_duration dem_only) = 0%nat
  /\ length (journal (script plain_engine storm_without_duration dem_only)) = 2%nat
  /\ last (journal (script plain_engine storm_without_duration dem_only))
     = Some (Cmd_mapcalc "rain_volume"
               (Mul (Num (inject_Z 50)) (Div Blank (Num 60))))
  /\ is_Some (left_behind (script plain_engine storm_without_duration dem_only)
                !! "rain_energy")
  /\ forall n, n <> "rain_energy" ->
       left_behind (script plain_engine storm_without_duration dem_only) !! n
       = dem_only !! n.
Proof.
  split; [reflexivity|]. split; [reflexivity|].
  apply (process_fails_without_rain_duration plain_engine storm_without_duration
           dem_only 50%Z); reflexivity.
Defined.

(** ** The constant factor rasters *)

(** X18. When neither a rain intensity nor any factor raster is given, the
    process writes the three constants under the fixed names [r_factor],
    [c_factor] and [k_factor] and never removes them: provided no output
    carries one of these names, they are in the mapset when the process
    ends, whether the model succeeded or failed, in place of whatever
    rasters had these names before. *)
Theorem constant_factor_rasters_replace_existing (E : Engine) o ms :
  opt_rain_intensity o = None ->
  opt_r_factor o = "" -> opt_c_factor o = "" -> opt_k_factor o = "" ->
  Forall (fun n => n ∉ factor_names)
    [opt_erosion o; opt_flow_accumulation o; opt_ls_factor o] ->
  left_behind (script E o ms) !! "r_factor" = Some (constant (Q2R (opt_r_factor_value o)))
  /\ left_behind (script E o ms) !! "c_factor"
     = Some (constant (Q2R (opt_c_factor_value o)))
  /\ left_behind (script E o ms) !! "k_factor"
     = Some (constant (Q2R (opt_k_factor_value o))).
Proof.
  intros Hi Hr Hc Hk Hout.
  assert (Hkeep : forall n, n ∈ factor_names ->
            left_behind (script E o ms) !! n
            = mapset (after (alternative_inputs E o (World ms []))) !! n).
  { intros n Hn.
    assert (Hn1 : n ∉ cleanup_names).
    { unfold factor_names in Hn. unfold cleanup_names.
      repeat (apply elem_of_cons in Hn as [->|Hn]; [not_member|]).
      by apply elem_of_nil in Hn. }
    assert (Hn2 : n ∉ [opt_erosion o; opt_flow_accumulation o; opt_ls_factor o]
                      ++ usped_scratch).
    { rewrite not_elem_of_app. split.
      - intros Hm. rewrite Forall_forall in Hout. exact (Hout n Hm Hn).
      - unfold factor_names in Hn. unfold usped_scratch.
        repeat (apply elem_of_cons in Hn as [->|Hn]; [not_member|]).
        by apply elem_of_nil in Hn. }
    rewrite left_behind_script.
    transitivity (mapset (after (main E o (World ms []))) !! n).
    - destruct (main_registers_last E o ms) as [[_ Hf]|[prog [_ Hf]]]; rewrite Hf;
        cbn [run_exitfuncs run_exitfunc fst]; [|reflexivity].
      apply (touches_only_cleanup_names E _ n Hn1).
    - pose proof (constant_inputs E o ms [] Hi Hr Hc Hk) as [Hres _].
      unfold main. rewrite (bind_inl _ _ _ _ Hres). cbn [after].
      apply (touches_only_run_to_exit E o "r_factor" "c_factor" "k_factor" _ n Hn2). }
  pose proof (constant_inputs E o ms [] Hi Hr Hc Hk) as [_ Hw].
  rewrite !Hkeep by (unfold factor_names; member). rewrite Hw. cbn [mapset].
  repeat split; lookups; reflexivity.
Qed.

Lemma constant_factor_rasters_replace_existing_witness :
  Forall (fun n => n ∉ factor_names)
    [opt_erosion (default_options "dem"); opt_flow_accumulation (default_options "dem");
     opt_ls_factor (default_options "dem")]
  /\ left_behind (script plain_engine (default_options "dem") ∅) !! "r_factor"
     = Some (constant (Q2R (opt_r_factor_value (default_options "dem"))))
  /\ left_behind (script plain_engine (default_options "dem") ∅) !! "c_factor"
     = Some (constant (Q2R (opt_c_factor_value (default_options "dem"))))
  /\ left_behind (script plain_engine (default_options "dem") ∅) !! "k_factor"
     = Some (constant (Q2R (opt_k_factor_value (default_options "dem")))).
Proof.
  assert (Hout : Forall (fun n => n ∉ factor_names)
            [opt_erosion (default_options "dem");
             opt_flow_accumulation (default_options "dem");
             opt_ls_factor (default_options "dem")]).
  { unfold factor_names, default_options.
    cbn [opt_erosion opt_flow_accumulation opt_ls_factor].
    repeat (apply Forall_cons_2; [not_member|]). apply Forall_nil_2. }
  split; [exact Hout|].
  exact (constant_factor_rasters_replace_existing plain_engine (default_options "dem") ∅
           eq_refl eq_refl eq_refl eq_refl Hout).
Defined.
